(** * LOL team maker: scoring, snake draft and lane assignment

    A shallow embedding of the services of the team maker:
    - [Types]     : the records of [src/types/riot.types.ts];
    - [RiotApi]   : [riotApi.service.ts] (latest revision): the rate-limited
                    fetcher with its retry on HTTP 429, the match cache, the
                    player analysis and the tier score;
    - [TeamMaker] : [teamMaker.service.ts]: sorting, snake draft and lane
                    assignment;
    - [ApiRoutes] : the [/divide-teams] handler of [api.routes.ts];
    - [PlayerRoutes] and [TeamMakerLimiter] : the handlers of [/player]
                    and [/players], and the request limit that the route
                    puts before the [/divide-teams] handler.

    JavaScript numbers that are integers by construction (counts, league
    points, API integers) are [Z]; derived averages and scores are exact
    rationals [Q] (the idealisation of IEEE doubles); [Math.log10] and
    [Math.sqrt] are parameters of the development.  A double can differ
    from the exact rational in its last bits; in a field that is rounded
    for publication this shows when the exact value lies within that
    error of a rounding boundary, and the field is then one unit of its
    last decimal off. *)

From Stdlib Require Import ZArith QArith Qround Qminmax Qabs Lia Lqa String Ascii List.
From Stdlib Require Import Znumtheory Permutation Sorted.
From stdpp Require Import base gmap strings list.

Local Open Scope string_scope.

(** ** Small JavaScript idioms *)

Module Js.

(** [a || d] on numbers, where [a] may be [undefined] (a missing key):
    [undefined] and [0] are both falsy. *)
Definition orNum (a : option Z) (d : Z) : Z :=
  match a with
  | Some 0%Z => d
  | Some v => v
  | None => d
  end.

(** [a || b] on strings: the empty string is falsy. *)
Definition orStr (a b : string) : string :=
  match a with
  | EmptyString => b
  | _ => a
  end.

(** Truthiness of a string. *)
Definition truthyStr (a : string) : bool :=
  match a with
  | EmptyString => false
  | _ => true
  end.

(** Property lookup in an object literal used as a string-keyed table:
    the literal's own keys, in insertion order.  The names that every
    object inherits ([constructor], [toString], ...) are left out; the
    keys looked up are tiers, divisions and roles of the upstream API. *)
Fixpoint prop {A} (o : list (string * A)) (k : string) : option A :=
  match o with
  | [] => None
  | (k', v) :: o' => if String.eqb k' k then Some v else prop o' k
  end.

(** [o.hasOwnProperty(k)]. *)
Definition hasOwnProperty {A} (o : list (string * A)) (k : string) : bool :=
  match prop o k with Some _ => true | None => false end.

(** [Math.round(x)]: the nearest integer, halves rounded up. *)
Definition round (x : Q) : Z := Qfloor (x + (1 # 2)).

(** [Math.round(x * 100) / 100]. *)
Definition round2 (x : Q) : Q := inject_Z (round (x * 100)) / 100.

(** [Math.round(x * 10) / 10]. *)
Definition round1 (x : Q) : Q := inject_Z (round (x * 10)) / 10.

End Js.

(** ** [riot.types.ts] *)

Module Types.

Record RiotAccount := {
  acc_puuid : string;
  acc_gameName : string;
  acc_tagLine : string
}.

(** The fields of [LeagueEntry] that the services read. *)
Record LeagueEntry := {
  queueType : string;
  tier : string;
  rank : string;
  leaguePoints : Z;
  wins : Z;
  losses : Z
}.

Record ParticipantDto := {
  p_puuid : string;
  teamPosition : string;
  individualPosition : string;
  kills : Z;
  deaths : Z;
  assists : Z;
  totalMinionsKilled : Z;
  neutralMinionsKilled : Z;
  visionScore : Z;
  win : bool
}.

Record MatchDto := {
  matchId : string;
  gameDuration : Z;
  participants : list ParticipantDto
}.

Record LaneCounts := {
  cTOP : Z;
  cJUNGLE : Z;
  cMIDDLE : Z;
  cBOTTOM : Z;
  cUTILITY : Z
}.

Record TierInfo := {
  ti_tier : string;
  ti_rank : string;
  ti_leaguePoints : Z
}.

Record PlayerStats := {
  gameName : string;
  tagLine : string;
  puuid : string;
  avgKills : Q;
  avgDeaths : Q;
  avgAssists : Q;
  avgCS : Q;
  kda : Q;
  winRate : Q;
  preferredLane : string;
  laneDistribution : LaneCounts;
  totalGames : Z;
  teamContribution : Q;
  tierInfo : option TierInfo
}.

(** The five roles, in the order the services enumerate them. *)
Inductive Lane := TOP | JUNGLE | MIDDLE | BOTTOM | UTILITY.

Definition laneName (l : Lane) : string :=
  match l with
  | TOP => "TOP"
  | JUNGLE => "JUNGLE"
  | MIDDLE => "MIDDLE"
  | BOTTOM => "BOTTOM"
  | UTILITY => "UTILITY"
  end.

(** [player.laneDistribution[lane]]. *)
Definition laneGames (c : LaneCounts) (l : Lane) : Z :=
  match l with
  | TOP => cTOP c
  | JUNGLE => cJUNGLE c
  | MIDDLE => cMIDDLE c
  | BOTTOM => cBOTTOM c
  | UTILITY => cUTILITY c
  end.

(** [Team.laneDistribution]: every role is optional. *)
Record LaneAssignment := {
  aTOP : option PlayerStats;
  aJUNGLE : option PlayerStats;
  aMIDDLE : option PlayerStats;
  aBOTTOM : option PlayerStats;
  aUTILITY : option PlayerStats
}.

Record Team := {
  teamNumber : nat;
  players : list PlayerStats;
  avgTeamScore : Q;
  teamLanes : LaneAssignment
}.

End Types.
Import Types.

#[global] Instance Q_eq_dec : EqDecision Q.
Proof. solve_decision. Defined.
#[global] Instance LaneCounts_eq_dec : EqDecision LaneCounts.
Proof. solve_decision. Defined.
#[global] Instance TierInfo_eq_dec : EqDecision TierInfo.
Proof. solve_decision. Defined.
#[global] Instance PlayerStats_eq_dec : EqDecision PlayerStats.
Proof. solve_decision. Defined.
#[global] Instance Lane_eq_dec : EqDecision Lane.
Proof. solve_decision. Defined.

(** ** [riotApi.service.ts] *)

Module RiotApi.

(** *** The upstream and the world the service runs in *)

(** What an axios call throws: [error.response?.status] and
    [error.response.headers['retry-after']]. *)
Record ApiError := {
  status : option Z;
  retryAfterHeader : option string
}.

(** A settled promise: resolved with a value or rejected with an error. *)
Inductive Outcome (A : Type) :=
| Returned (a : A)
| Thrown (e : ApiError).
Arguments Returned {A} a.
Arguments Thrown {A} e.

(** The four upstream operations, by the URL they request. *)
Inductive Request :=
| AccountByRiotId (gameName tagLine : string)
| LeagueEntriesByPuuid (puuid : string)
| MatchIdsByPuuid (puuid : string) (count : Z)
| MatchById (matchId : string).

#[global] Instance Request_eq_dec : EqDecision Request.
Proof. solve_decision. Defined.

(** The upstream answers the [n]-th attempt (from 0) of each request. *)
Record Upstream := {
  accountApi : string -> string -> nat -> Outcome RiotAccount;
  leagueApi : string -> nat -> Outcome (list LeagueEntry);
  matchIdsApi : string -> Z -> nat -> Outcome (list string);
  matchApi : string -> nat -> Outcome MatchDto
}.

(** What the fetcher does that can be observed from outside: an upstream
    call, or a back-off wait of some milliseconds. *)
Inductive Event :=
| Called (req : Request)
| Waited (ms : Z).

#[global] Instance Event_eq_dec : EqDecision Event.
Proof. solve_decision. Defined.

(** The service's mutable state and its observable effects: the events
    so far, oldest first, and [matchCache], whose promises are
    represented by the value they settle to. *)
Record World := {
  trace : list Event;
  matchCache : gmap string (Outcome (option MatchDto))
}.

Definition emptyWorld : World :=
  {| trace := []; matchCache := ∅ |}.

(** How often [req] has been sent upstream. *)
Definition attempts (w : World) (req : Request) : nat :=
  count_occ Event_eq_dec (trace w) (Called req).

(** Computations: state passing, a settled outcome, and [None] when a
    retry loop has not settled within its bound. *)
Definition M (A : Type) : Type := World -> option (Outcome A * World).

Definition ret {A} (a : A) : M A := fun w => Some (Returned a, w).

Definition bind {A B} (m : M A) (f : A -> M B) : M B :=
  fun w =>
    match m w with
    | None => None
    | Some (Returned a, w') => f a w'
    | Some (Thrown e, w') => Some (Thrown e, w')
    end.

(** [try { m } catch (e) { h }] with a handler that cannot throw. *)
Definition catch {A} (m : M A) (h : ApiError -> A) : M A :=
  fun w =>
    match m w with
    | None => None
    | Some (Returned a, w') => Some (Returned a, w')
    | Some (Thrown e, w') => Some (Returned (h e), w')
    end.

Notation "'let*' x ':=' m 'in' k" := (bind m (fun x => k))
  (at level 10, x name, m at level 100, k at level 200).

Fixpoint mapM {A B} (f : A -> M B) (l : list A) : M (list B) :=
  match l with
  | [] => ret []
  | a :: l' => let* b := f a in let* bs := mapM f l' in ret (b :: bs)
  end.

(** *** The rate limiter's retry on HTTP 429 *)

(** A JavaScript number as the [failed] listener produces it: an
    integer that is a double, an infinity, or [NaN]. *)
Inductive JsNum := Num (z : Z) | Inf (negative : bool) | NaN.

(** The double nearest to the integer [z], ties to the even significand:
    [z] itself below [2^53], an infinity from [2^1024 - 2^970] on. *)
Definition toDouble (z : Z) : JsNum :=
  let a := Z.abs z in
  if (a <? 2 ^ 53)%Z then Num z
  else
    let e := (Z.log2 a - 52)%Z in
    let q := Z.shiftr a e in
    let r := (a - Z.shiftl q e)%Z in
    let half := Z.shiftl 1 (e - 1) in
    let q' := if (r <? half)%Z then q
              else if (half <? r)%Z then (q + 1)%Z
              else if Z.even q then q else (q + 1)%Z in
    let v := Z.shiftl q' e in
    if (2 ^ 1024 <=? v)%Z then Inf (z <? 0)%Z else Num (Z.sgn z * v).

Definition isWhite (c : ascii) : bool :=
  let n := nat_of_ascii c in
  (Nat.leb 9 n && Nat.leb n 13) || Nat.eqb n 32.

Fixpoint skipWhite (s : string) : string :=
  match s with
  | String c s' => if isWhite c then skipWhite s' else s
  | EmptyString => s
  end.

Definition digitVal (c : ascii) : option Z :=
  let n := nat_of_ascii c in
  if Nat.leb 48 n && Nat.leb n 57 then Some (Z.of_nat n - 48)%Z
  else if Nat.leb 97 n && Nat.leb n 122 then Some (Z.of_nat n - 87)%Z
  else if Nat.leb 65 n && Nat.leb n 90 then Some (Z.of_nat n - 55)%Z
  else None.

(** The longest prefix of digits in the radix; [None] when it is empty. *)
Fixpoint digits (radix : Z) (s : string) (acc : option Z) : option Z :=
  match s with
  | String c s' =>
      match digitVal c with
      | Some d =>
          if (d <? radix)%Z
          then digits radix s' (Some (default 0%Z acc * radix + d)%Z)
          else acc
      | None => acc
      end
  | EmptyString => acc
  end.

(** [parseInt(s)] without a radix argument; the integer that the digits
    denote is returned as the nearest double. *)
Definition parseInt (s : string) : JsNum :=
  let s1 := skipWhite s in
  let '(sign, s2) :=
    match s1 with
    | String "-"%char r => ((-1)%Z, r)
    | String "+"%char r => (1%Z, r)
    | _ => (1%Z, s1)
    end in
  let '(radix, s3) :=
    match s2 with
    | String "0"%char (String "x"%char r) => (16%Z, r)
    | String "0"%char (String "X"%char r) => (16%Z, r)
    | _ => (10%Z, s2)
    end in
  match digits radix s3 None with
  | Some v => toDouble (sign * v)
  | None => NaN
  end.

(** [a * k] for an integer [k]. *)
Definition mulNum (a : JsNum) (k : Z) : JsNum :=
  match a with
  | Num z => toDouble (z * k)
  | Inf negative => if (k =? 0)%Z then NaN else Inf (xorb negative (k <? 0)%Z)
  | NaN => NaN
  end.

Definition is429 (e : ApiError) : bool :=
  match status e with Some s => (s =? 429)%Z | None => false end.

(** [limiter.on('failed', ...)]: the listener answers a 429 with the
    number of milliseconds to wait and anything else with [undefined]. *)
Definition onFailed (error : ApiError) : option JsNum :=
  if is429 error then
    Some (match retryAfterHeader error with
          | Some h => if Js.truthyStr h then mulNum (parseInt h) 1000 else Num 10000
          | None => Num 10000
          end)
  else None.

(** Bottleneck's side of the retry: the listener's number is truncated
    to a 32-bit integer ([~~retry]) and the job is run again after a
    timer of that many milliseconds, which fires at once when the delay
    is not positive. *)
Definition toInt32 (z : Z) : Z :=
  ((z + 2147483648) mod 4294967296 - 2147483648)%Z.

Definition retryDelay (r : JsNum) : Z :=
  match r with
  | Num z => Z.max 0 (toInt32 z)
  | Inf _ => 0%Z
  | NaN => 0%Z
  end.

Definition wait (ms : Z) (w : World) : World :=
  {| trace := trace w ++ [Waited ms]; matchCache := matchCache w |}.

(** [limiter.schedule(job)]: run the job; when it throws, ask the
    [failed] listener; a number means wait and run the same job again,
    [undefined] means reject with the error.  [retries] bounds the number
    of runs. *)
Fixpoint schedule {A} (retries : nat) (job : M A) : M A :=
  fun w =>
    match retries with
    | O => None
    | S n =>
        match job w with
        | None => None
        | Some (Returned a, w') => Some (Returned a, w')
        | Some (Thrown e, w') =>
            match onFailed e with
            | Some retry => schedule n job (wait (retryDelay retry) w')
            | None => Some (Thrown e, w')
            end
        end
    end.

(** *** The service methods *)

(** One upstream call: the request is logged, and the upstream answers
    according to how often it has seen this request. *)
Definition axiosGet {A} (api : nat -> Outcome A) (req : Request) : M A :=
  fun w =>
    Some (api (attempts w req),
          {| trace := trace w ++ [Called req]; matchCache := matchCache w |}).

(** The body every method hands to the limiter:
    [try { return (await get(url)).data } catch (error) {
       if (error.response?.status === 429) throw error; return fallback }]. *)
Definition guardedGet {A B} (api : nat -> Outcome A) (req : Request)
    (data : A -> B) (fallback : B) : M B :=
  fun w =>
    match axiosGet api req w with
    | None => None
    | Some (Returned d, w') => Some (Returned (data d), w')
    | Some (Thrown error, w') =>
        if is429 error then Some (Thrown error, w')
        else Some (Returned fallback, w')
    end.

Section Service.

Context (up : Upstream) (retries : nat).

(** A failed lookup yields [null], it does not throw. *)
Definition getAccountByRiotId (gameName tagLine : string) : M (option RiotAccount) :=
  schedule retries
    (guardedGet (accountApi up gameName tagLine)
       (AccountByRiotId gameName tagLine) Some None).

Definition getLeagueEntriesByPuuid (puuid : string) : M (list LeagueEntry) :=
  schedule retries
    (guardedGet (leagueApi up puuid) (LeagueEntriesByPuuid puuid) id []).

Definition getMatchHistory (puuid : string) (count : Z) : M (list string) :=
  schedule retries
    (guardedGet (matchIdsApi up puuid count) (MatchIdsByPuuid puuid count) id []).

(** [getMatchDetails]: a cached promise is returned as it is; otherwise
    the scheduled fetch is stored under the identifier, whatever it
    settles to, and returned. *)
Definition getMatchDetails (matchId : string) : M (option MatchDto) :=
  fun w =>
    match matchCache w !! matchId with
    | Some cached => Some (cached, w)
    | None =>
        match schedule retries
                (guardedGet (matchApi up matchId) (MatchById matchId) Some None) w with
        | None => None
        | Some (matchPromise, w') =>
            Some (matchPromise,
                  {| trace := trace w';
                     matchCache := <[matchId := matchPromise]> (matchCache w') |})
        end
    end.

End Service.

(** *** Tier score *)

Definition TIER_SCORES : list (string * Z) :=
  [ ("IRON", 0); ("BRONZE", 400); ("SILVER", 800); ("GOLD", 1200);
    ("PLATINUM", 1600); ("EMERALD", 2000); ("DIAMOND", 2400);
    ("MASTER", 2800); ("GRANDMASTER", 2800); ("CHALLENGER", 2800) ]%Z.

Definition RANK_SCORES : list (string * Z) :=
  [ ("IV", 0); ("III", 100); ("II", 200); ("I", 300) ]%Z.

(** [['MASTER', 'GRANDMASTER', 'CHALLENGER'].includes(tier)]. *)
Definition isApex (tier : string) : bool :=
  existsb (String.eqb tier) ["MASTER"; "GRANDMASTER"; "CHALLENGER"].

Definition calculateTierScore (rankInfo : option LeagueEntry) : Z :=
  match rankInfo with
  | None => 1200
  | Some rankInfo =>
      let baseScore := Js.orNum (Js.prop TIER_SCORES (tier rankInfo)) 1200 in
      if isApex (tier rankInfo) then baseScore + leaguePoints rankInfo
      else
        let rankScore := Js.orNum (Js.prop RANK_SCORES (rank rankInfo)) 0 in
        baseScore + rankScore + leaguePoints rankInfo
  end%Z.

(** *** Aggregation over the fetched matches *)

(** The accumulators of step 5; [laneCount] is the object literal with
    its five keys in insertion order. *)
Record Totals := {
  totalKills : Z;
  totalDeaths : Z;
  totalAssists : Z;
  totalVSPM : Q;
  wins' : Z;
  totalCSPM : Q;
  laneCount : list (string * Z)
}.

Definition initTotals : Totals :=
  {| totalKills := 0%Z; totalDeaths := 0%Z; totalAssists := 0%Z;
     totalVSPM := 0%Q; wins' := 0%Z; totalCSPM := 0%Q;
     laneCount := [ ("TOP", 0); ("JUNGLE", 0); ("MIDDLE", 0);
                    ("BOTTOM", 0); ("UTILITY", 0) ]%Z |}.

(** [laneCount[position]++] for a key the object has. *)
Definition increment (o : list (string * Z)) (k : string) : list (string * Z) :=
  map (fun e => if String.eqb (fst e) k then (fst e, snd e + 1)%Z else e) o.

Definition Qgtb (a b : Q) : bool := negb (Qle_bool a b).

(** The body of [matches.forEach]. *)
Definition addMatch (puuid : string) (t : Totals) (match' : MatchDto) : Totals :=
  match List.find (fun p => String.eqb (p_puuid p) puuid) (participants match') with
  | None => t
  | Some participant =>
      let gameDurationMinutes := (inject_Z (gameDuration match') / 60)%Q in
      let timed := Qgtb gameDurationMinutes 0 in
      let cs := (totalMinionsKilled participant + neutralMinionsKilled participant)%Z in
      let position :=
        Js.orStr (individualPosition participant) (teamPosition participant) in
      {| totalKills := (totalKills t + kills participant)%Z;
         totalDeaths := (totalDeaths t + deaths participant)%Z;
         totalAssists := (totalAssists t + assists participant)%Z;
         totalVSPM :=
           if timed
           then (totalVSPM t + inject_Z (visionScore participant) / gameDurationMinutes)%Q
           else totalVSPM t;
         wins' := if win participant then (wins' t + 1)%Z else wins' t;
         totalCSPM :=
           if timed then (totalCSPM t + inject_Z cs / gameDurationMinutes)%Q
           else totalCSPM t;
         laneCount :=
           if Js.truthyStr position && Js.hasOwnProperty (laneCount t) position
           then increment (laneCount t) position
           else laneCount t |}
  end.

Definition aggregate (puuid : string) (matches : list MatchDto) : Totals :=
  fold_left (addMatch puuid) matches initTotals.

(** *** Derived statistics (step 6) *)

Definition perGame (total : Q) (gamesPlayed : nat) : Q :=
  (total / inject_Z (Z.of_nat gamesPlayed))%Q.

Definition avgKillsOf (t : Totals) (n : nat) : Q := perGame (inject_Z (totalKills t)) n.
Definition avgDeathsOf (t : Totals) (n : nat) : Q := perGame (inject_Z (totalDeaths t)) n.
Definition avgAssistsOf (t : Totals) (n : nat) : Q := perGame (inject_Z (totalAssists t)) n.
Definition avgCSPMOf (t : Totals) (n : nat) : Q := perGame (totalCSPM t) n.
Definition avgVSPMOf (t : Totals) (n : nat) : Q := perGame (totalVSPM t) n.

(** [avgDeaths > 0 ? (avgKills + avgAssists) / avgDeaths : avgKills + avgAssists]. *)
Definition kdaOf (t : Totals) (n : nat) : Q :=
  if Qgtb (avgDeathsOf t n) 0
  then ((avgKillsOf t n + avgAssistsOf t n) / avgDeathsOf t n)%Q
  else (avgKillsOf t n + avgAssistsOf t n)%Q.

Definition recentWinRateOf (t : Totals) (n : nat) : Q :=
  (perGame (inject_Z (wins' t)) n * 100)%Q.

(** [laneCount[a[0]] >= laneCount[b[0]]]; a comparison with [undefined]
    is false. *)
Definition countGe (o : list (string * Z)) (a b : string * Z) : bool :=
  match Js.prop o (fst a), Js.prop o (fst b) with
  | Some x, Some y => (y <=? x)%Z
  | _, _ => false
  end.

(** [Object.entries(laneCount).reduce((a, b) => ... ? a : b)[0]];
    [None] stands for the [TypeError] of reducing an empty array. *)
Definition preferredLaneOf (o : list (string * Z)) : option string :=
  match o with
  | [] => None
  | e :: es => Some (fst (fold_left (fun a b => if countGe o a b then a else b) es e))
  end.

(** *** Score components (step 6 of the analysis) *)

(** [Math.max(-150, Math.min(150, (kda - 3.0) * 30))]. *)
Definition kdaBonusOf (kda : Q) : Q :=
  Qmax (-150) (Qmin 150 ((kda - 3) * 30)).

Definition winRateBonusOf (recentWinRate : Q) : Q :=
  (recentWinRate - 50) * 5.

Definition totalSeasonGamesOf (rankInfo : option LeagueEntry) : Z :=
  match rankInfo with
  | Some rankInfo => (wins rankInfo + losses rankInfo)%Z
  | None => 0%Z
  end.

Definition statsBonusOf (preferredLane : string) (avgVSPM avgCSPM : Q) : Q :=
  if String.eqb preferredLane "UTILITY"
  then (avgVSPM - 2) * 20
  else (avgCSPM - (65 # 10)) * 10.

(** The record returned for an identity without an account ([puuid] is
    ['unknown']) and from the outer [catch] of the analysis. *)
Definition failedStats (gameName tagLine puuid : string) : PlayerStats :=
  {| gameName := gameName; tagLine := tagLine; puuid := puuid;
     avgKills := 0; avgDeaths := 0; avgAssists := 0; avgCS := 0;
     kda := 0; winRate := 0;
     preferredLane := "TOP";
     laneDistribution :=
       {| cTOP := 0; cJUNGLE := 0; cMIDDLE := 0; cBOTTOM := 0; cUTILITY := 0 |};
     totalGames := 0;
     teamContribution := 0;
     tierInfo := None |}.

Definition tierInfoOf (rankInfo : option LeagueEntry) : option TierInfo :=
  match rankInfo with
  | Some rankInfo =>
      Some {| ti_tier := tier rankInfo; ti_rank := rank rankInfo;
              ti_leaguePoints := leaguePoints rankInfo |}
  | None => None
  end.

(** [baseStats] with [teamContribution] set to the tier score: what is
    returned when there is no match to aggregate. *)
Definition tierOnlyStats (gameName tagLine : string) (account : RiotAccount)
    (rankInfo : option LeagueEntry) : PlayerStats :=
  {| gameName := gameName; tagLine := tagLine; puuid := acc_puuid account;
     avgKills := 0; avgDeaths := 0; avgAssists := 0; avgCS := 0;
     kda := 0; winRate := 0;
     preferredLane := "TOP";
     laneDistribution :=
       {| cTOP := 0; cJUNGLE := 0; cMIDDLE := 0; cBOTTOM := 0; cUTILITY := 0 |};
     totalGames := 0;
     teamContribution := inject_Z (calculateTierScore rankInfo);
     tierInfo := tierInfoOf rankInfo |}.

(** [laneCount.TOP] and the like; the keys are always there. *)
Definition countOf (o : list (string * Z)) (k : string) : Z :=
  default 0%Z (Js.prop o k).

Section Analysis.

(** [Math.log10]. *)
Context (log10 : Q -> Q).

(** [totalSeasonGames > 0 ? Math.min(50, Math.log10(totalSeasonGames) * 15) : 0]. *)
Definition activityBonusOf (rankInfo : option LeagueEntry) : Q :=
  let totalSeasonGames := totalSeasonGamesOf rankInfo in
  if (0 <? totalSeasonGames)%Z
  then Qmin 50 (log10 (inject_Z totalSeasonGames) * 15)
  else 0.

Definition finalScoreOf (rankInfo : option LeagueEntry) (t : Totals) (n : nat)
    (preferredLane : string) : Q :=
  inject_Z (calculateTierScore rankInfo)
  + kdaBonusOf (kdaOf t n)
  + winRateBonusOf (recentWinRateOf t n)
  + activityBonusOf rankInfo
  + statsBonusOf preferredLane (avgVSPMOf t n) (avgCSPMOf t n).

(** Steps 5 to 7 on the matches that were fetched. *)
Definition scoreMatches (gameName tagLine : string) (account : RiotAccount)
    (rankInfo : option LeagueEntry) (matches : list MatchDto) : PlayerStats :=
  let t := aggregate (acc_puuid account) matches in
  let gamesPlayed := length matches in
  if Nat.eqb gamesPlayed 0 then tierOnlyStats gameName tagLine account rankInfo
  else
    match preferredLaneOf (laneCount t) with
    | None => failedStats gameName tagLine (acc_puuid account)
    | Some preferredLane =>
        {| gameName := gameName; tagLine := tagLine; puuid := acc_puuid account;
           avgKills := Js.round2 (avgKillsOf t gamesPlayed);
           avgDeaths := Js.round2 (avgDeathsOf t gamesPlayed);
           avgAssists := Js.round2 (avgAssistsOf t gamesPlayed);
           avgCS := Js.round1 (avgCSPMOf t gamesPlayed);
           kda := Js.round2 (kdaOf t gamesPlayed);
           winRate := Js.round2 (recentWinRateOf t gamesPlayed);
           preferredLane := preferredLane;
           laneDistribution :=
             {| cTOP := countOf (laneCount t) "TOP";
                cJUNGLE := countOf (laneCount t) "JUNGLE";
                cMIDDLE := countOf (laneCount t) "MIDDLE";
                cBOTTOM := countOf (laneCount t) "BOTTOM";
                cUTILITY := countOf (laneCount t) "UTILITY" |};
           totalGames := totalSeasonGamesOf rankInfo;
           teamContribution :=
             Js.round2 (finalScoreOf rankInfo t gamesPlayed preferredLane);
           tierInfo := tierInfoOf rankInfo |}
    end.

Context (up : Upstream) (retries : nat).

(** [soloRank || flexRank]. *)
Definition pickRank (leagues : list LeagueEntry) : option LeagueEntry :=
  match List.find (fun l => String.eqb (queueType l) "RANKED_SOLO_5x5") leagues with
  | Some soloRank => Some soloRank
  | None => List.find (fun l => String.eqb (queueType l) "RANKED_FLEX_SR") leagues
  end.

(** [analyzePlayerStats].  The progress callback is left out; the
    match details are requested in the order of [matchIds], which is
    the order in which the source enters [getMatchDetails]. *)
Definition analyzePlayerStats (gameName tagLine : string) : M PlayerStats :=
  let* account := catch (getAccountByRiotId up retries gameName tagLine)
                        (fun _ => None) in
  match account with
  | None => ret (failedStats gameName tagLine "unknown")
  | Some account =>
      let* rankInfo :=
        catch (let* leagues := getLeagueEntriesByPuuid up retries (acc_puuid account) in
               ret (pickRank leagues))
              (fun _ => None) in
      let* matchIds := catch (getMatchHistory up retries (acc_puuid account) 20)
                             (fun _ => []) in
      match matchIds with
      | [] => ret (tierOnlyStats gameName tagLine account rankInfo)
      | _ =>
          let* fetched :=
            mapM (fun matchId => catch (getMatchDetails up retries matchId)
                                       (fun _ => None)) matchIds in
          let matches := omap id fetched in
          ret (scoreMatches gameName tagLine account rankInfo matches)
      end
  end.

End Analysis.

End RiotApi.

(** ** [teamMaker.service.ts] *)

Module TeamMaker.

(** What [divideIntoTeams] can throw: the [Error] of its guard, and the
    [TypeError] of reading [.players] of a team that does not exist. *)
Inductive Error := InvalidInput | TypeError.

Inductive Result (A : Type) :=
| Ok (a : A)
| Raise (e : Error).
Arguments Ok {A} a.
Arguments Raise {A} e.

(** *** Sorting *)

(** The comparator [(a, b) => b.teamContribution - a.teamContribution]. *)
Definition byContribution (a b : PlayerStats) : Q :=
  teamContribution b - teamContribution a.

(** [Array.prototype.sort] is stable: an element moves behind a later
    one only when the comparator is positive on the pair. *)
Fixpoint insertSorted (cmp : PlayerStats -> PlayerStats -> Q) (x : PlayerStats)
    (l : list PlayerStats) : list PlayerStats :=
  match l with
  | [] => [x]
  | y :: l' => if RiotApi.Qgtb (cmp x y) 0 then y :: insertSorted cmp x l' else x :: l
  end.

Definition sort (cmp : PlayerStats -> PlayerStats -> Q) (l : list PlayerStats)
    : list PlayerStats :=
  foldr (insertSorted cmp) [] l.

(** *** Snake draft *)

Definition noLanes : LaneAssignment :=
  {| aTOP := None; aJUNGLE := None; aMIDDLE := None; aBOTTOM := None; aUTILITY := None |}.

Definition emptyTeam (i : nat) : Team :=
  {| teamNumber := i + 1; players := []; avgTeamScore := 0; teamLanes := noLanes |}.

(** [0 .. teamCount-1] followed by [teamCount-1 .. 0]. *)
Definition draftOrderOf (teamCount : nat) : list nat :=
  seq 0 teamCount ++ reverse (seq 0 teamCount).

(** [team.players.push(player)]. *)
Definition pushPlayer (team : Team) (player : PlayerStats) : Team :=
  {| teamNumber := teamNumber team; players := players team ++ [player];
     avgTeamScore := avgTeamScore team; teamLanes := teamLanes team |}.

(** [draftOrder[draftIndex % draftOrder.length]]; [undefined] when the
    order is empty (the remainder is [NaN]). *)
Definition draftPick (draftOrder : list nat) (draftIndex : nat) : option nat :=
  match draftOrder with
  | [] => None
  | _ => draftOrder !! (draftIndex mod length draftOrder)
  end.

(** The loop [for (const player of sortedPlayers)]. *)
Fixpoint draft (draftOrder : list nat) (sortedPlayers : list PlayerStats)
    (draftIndex : nat) (teams : list Team) : Result (list Team) :=
  match sortedPlayers with
  | [] => Ok teams
  | player :: rest =>
      match draftPick draftOrder draftIndex with
      | None => Raise TypeError
      | Some teamIndex =>
          match teams !! teamIndex with
          | None => Raise TypeError
          | Some team =>
              draft draftOrder rest (S draftIndex)
                    (<[teamIndex := pushPlayer team player]> teams)
          end
      end
  end.

(** *** Lane assignment *)

Definition lanes : list Lane := [TOP; JUNGLE; MIDDLE; BOTTOM; UTILITY].

Definition getLane (a : LaneAssignment) (l : Lane) : option PlayerStats :=
  match l with
  | TOP => aTOP a
  | JUNGLE => aJUNGLE a
  | MIDDLE => aMIDDLE a
  | BOTTOM => aBOTTOM a
  | UTILITY => aUTILITY a
  end.

Definition setLane (a : LaneAssignment) (l : Lane) (p : PlayerStats) : LaneAssignment :=
  {| aTOP := if decide (l = TOP) then Some p else aTOP a;
     aJUNGLE := if decide (l = JUNGLE) then Some p else aJUNGLE a;
     aMIDDLE := if decide (l = MIDDLE) then Some p else aMIDDLE a;
     aBOTTOM := if decide (l = BOTTOM) then Some p else aBOTTOM a;
     aUTILITY := if decide (l = UTILITY) then Some p else aUTILITY a |}.

(** The body of the loop of [findBestPlayerForLane] on the pair
    [(bestPlayer, maxLaneCount)]. *)
Definition keepBest (lane : Lane) (best : PlayerStats * Z) (player : PlayerStats)
    : PlayerStats * Z :=
  let '(bestPlayer, maxLaneCount) := best in
  let laneCount := laneGames (laneDistribution player) lane in
  if (maxLaneCount <? laneCount)%Z then (player, laneCount)
  else (bestPlayer, maxLaneCount).

(** [findBestPlayerForLane]: the first player with the highest count
    for the lane, or [null] when that count is not positive. *)
Definition findBestPlayerForLane (players : list PlayerStats) (lane : Lane)
    : option PlayerStats :=
  match players with
  | [] => None
  | first :: _ =>
      let '(bestPlayer, maxLaneCount) :=
        fold_left (keepBest lane) players
                  (first, laneGames (laneDistribution first) lane) in
      if (0 <? maxLaneCount)%Z then Some bestPlayer else None
  end.

(** [players.indexOf(p)]; [None] stands for [-1].  Objects are compared
    by identity in the source and by value here; the player searched for
    is always the first of its value in the list. *)
Definition indexOf (players : list PlayerStats) (p : PlayerStats) : option nat :=
  fst <$> list_find (fun q => q = p) players.

(** [players.splice(index, 1)]; index [-1] removes the last element. *)
Definition spliceOne (index : option nat) (players : list PlayerStats)
    : list PlayerStats :=
  match index with
  | Some i => delete i players
  | None => removelast players
  end.

(** First pass, one lane. *)
Definition assignBest (st : LaneAssignment * list PlayerStats) (lane : Lane)
    : LaneAssignment * list PlayerStats :=
  let '(assignments, unassignedPlayers) := st in
  match findBestPlayerForLane unassignedPlayers lane with
  | Some bestPlayer =>
      (setLane assignments lane bestPlayer,
       spliceOne (indexOf unassignedPlayers bestPlayer) unassignedPlayers)
  | None => st
  end.

(** Second pass, one lane. *)
Definition fillEmpty (st : LaneAssignment * list PlayerStats) (lane : Lane)
    : LaneAssignment * list PlayerStats :=
  let '(assignments, unassignedPlayers) := st in
  match getLane assignments lane, unassignedPlayers with
  | None, next :: rest => (setLane assignments lane next, rest)
  | _, _ => st
  end.

Definition optimizeLaneDistribution (team : Team) : Team :=
  let pass1 := fold_left assignBest lanes (noLanes, players team) in
  let pass2 := fold_left fillEmpty lanes pass1 in
  {| teamNumber := teamNumber team; players := players team;
     avgTeamScore := avgTeamScore team; teamLanes := fst pass2 |}.

(** *** Averages and the whole division *)

Definition totalScoreOf (team : Team) : Q :=
  fold_left (fun sum p => (sum + teamContribution p)%Q) (players team) 0%Q.

(** [Math.round((totalScore / team.players.length) * 100) / 100]. *)
Definition withAverage (team : Team) : Team :=
  {| teamNumber := teamNumber team; players := players team;
     avgTeamScore :=
       Js.round2 (totalScoreOf team / inject_Z (Z.of_nat (length (players team))))%Q;
     teamLanes := teamLanes team |}.

Definition divideIntoTeams (players : list PlayerStats) : Result (list Team) :=
  if Nat.ltb (length players) 10 || negb (Nat.eqb (length players mod 5) 0)
  then Raise InvalidInput
  else
    let teamCount := length players / 5 in
    let sortedPlayers := sort byContribution players in
    let teams := map emptyTeam (seq 0 teamCount) in
    match draft (draftOrderOf teamCount) sortedPlayers 0 teams with
    | Raise e => Raise e
    | Ok teams => Ok (map withAverage (map optimizeLaneDistribution teams))
    end.

Section Balance.

(** [Math.sqrt]. *)
Context (sqrt : Q -> Q).

(** Population standard deviation of the team averages. *)
Definition calculateTeamBalance (teams : list Team) : Q :=
  let avgScores := map avgTeamScore teams in
  let n := inject_Z (Z.of_nat (length avgScores)) in
  let mean := (fold_left Qplus avgScores 0 / n)%Q in
  let variance :=
    (fold_left (fun sum score => sum + (score - mean) * (score - mean)) avgScores 0 / n)%Q in
  sqrt variance.

End Balance.

End TeamMaker.

(** ** [api.routes.ts]: the [/divide-teams] handler *)

Module ApiRoutes.

Import RiotApi.

Record Identity := {
  id_gameName : string;
  id_tagLine : string
}.

(** The errors the handler reports: too few analysed players (with the
    count), a throw of [divideIntoTeams], or a rejected promise. *)
Inductive Failure :=
| InsufficientResults (successful : nat)
| DivideFailed (e : TeamMaker.Error)
| Rejected (e : ApiError).

(** What the caller receives, progress events apart: the 400 answer of
    the guard, an error event, or the final event with the teams and the
    rounded balance. *)
Inductive Response :=
| BadRequest (count : nat)
| ErrorEvent (f : Failure)
| Complete (teams : list Team) (balance : Q).

Section Handler.

Context (log10 sqrt : Q -> Q) (up : Upstream) (retries : nat).

(** The body mapped over [players]: the analysed stats, or [null] when
    the analysis throws. *)
Definition analyzeOne (p : Identity) : M (option PlayerStats) :=
  catch (let* stats := analyzePlayerStats log10 up retries
                         (id_gameName p) (id_tagLine p) in
         ret (Some stats))
        (fun _ => None).

(** [playerStats]: the stats are pushed as the analyses complete;
    [completion] lists the positions of [players] in that order. *)
Definition pushed (results : list (option PlayerStats)) (completion : list nat)
    : list PlayerStats :=
  omap (fun i => mjoin (results !! i)) completion.

Definition divideTeams (players : list Identity) (completion : list nat)
    : World -> option (Response * World) :=
  fun w =>
    if Nat.ltb (length players) 10 || negb (Nat.eqb (length players mod 5) 0)
    then Some (BadRequest (length players), w)
    else
      match mapM analyzeOne players w with
      | None => None
      | Some (Thrown e, w') => Some (ErrorEvent (Rejected e), w')
      | Some (Returned results, w') =>
          let playerStats := pushed results completion in
          let validStats := playerStats in
          if Nat.ltb (length validStats) 10
          then Some (ErrorEvent (InsufficientResults (length validStats)), w')
          else
            match TeamMaker.divideIntoTeams validStats with
            | TeamMaker.Raise e => Some (ErrorEvent (DivideFailed e), w')
            | TeamMaker.Ok teams =>
                let balance := TeamMaker.calculateTeamBalance sqrt teams in
                Some (Complete teams (Js.round2 balance), w')
            end
      end.

End Handler.

End ApiRoutes.

(** * Sample data *)

Module Sample.

Import RiotApi.

Definition notFound : ApiError := {| status := Some 404%Z; retryAfterHeader := None |}.
Definition throttled (h : option string) : ApiError :=
  {| status := Some 429%Z; retryAfterHeader := h |}.

Definition participant (id pos : string) (k d a cs vs : Z) (w : bool) : ParticipantDto :=
  {| p_puuid := id; teamPosition := pos; individualPosition := "";
     kills := k; deaths := d; assists := a;
     totalMinionsKilled := cs; neutralMinionsKilled := 0; visionScore := vs;
     win := w |}.

(** Three half-hour games of one player: KDA 3, 6.5 CS per minute, one
    win out of three. *)
Definition games : list MatchDto :=
  [ {| matchId := "KR_1"; gameDuration := 1800;
       participants := [participant "p-1" "TOP" 2 1 1 195 30 true] |};
    {| matchId := "KR_2"; gameDuration := 1800;
       participants := [participant "p-1" "MIDDLE" 2 1 1 195 30 false] |};
    {| matchId := "KR_3"; gameDuration := 1800;
       participants := [participant "p-1" "MIDDLE" 2 1 1 195 30 false] |} ].

Definition account1 : RiotAccount :=
  {| acc_puuid := "p-1"; acc_gameName := "Hide on bush"; acc_tagLine := "KR1" |}.

(** An upstream that knows one account, unranked, with the three games. *)
Definition upstream1 : Upstream :=
  {| accountApi := fun g t _ =>
       if String.eqb g "Hide on bush" && String.eqb t "KR1"
       then Returned account1 else Thrown notFound;
     leagueApi := fun _ _ => Returned [];
     matchIdsApi := fun p _ _ =>
       if String.eqb p "p-1" then Returned ["KR_1"; "KR_2"; "KR_3"] else Returned [];
     matchApi := fun m _ =>
       match List.find (fun g => String.eqb (matchId g) m) games with
       | Some g => Returned g
       | None => Thrown notFound
       end |}.

(** [Math.log10] is not reached for unranked players; this stand-in is
    only needed to run the analysis on them. *)
Definition noLog : Q -> Q := fun _ => 0%Q.

(** A square root that is exact on squares of rationals, which is what
    the variance of two team averages is. *)
Definition sqrtQ (x : Q) : Q :=
  Z.sqrt (Qnum x * Zpos (Qden x)) # Qden x.

(** The same upstream, except that the first request for match [KR_9]
    fails with a server error and later ones succeed. *)
Definition game9 : MatchDto :=
  {| matchId := "KR_9"; gameDuration := 1500;
     participants := [participant "p-1" "BOTTOM" 5 2 3 180 12 true] |}.

Definition serverError : ApiError := {| status := Some 500%Z; retryAfterHeader := None |}.

Definition upstream2 : Upstream :=
  {| accountApi := accountApi upstream1;
     leagueApi := leagueApi upstream1;
     matchIdsApi := matchIdsApi upstream1;
     matchApi := fun m attempt =>
       if String.eqb m "KR_9"
       then match attempt with O => Thrown serverError | S _ => Returned game9 end
       else matchApi upstream1 m attempt |}.


(** Ten identities of which only the first resolves to an account. *)
Definition tenIdentities : list ApiRoutes.Identity :=
  {| ApiRoutes.id_gameName := "Hide on bush"; ApiRoutes.id_tagLine := "KR1" |}
  :: map (fun n => {| ApiRoutes.id_gameName := n; ApiRoutes.id_tagLine := "KR1" |})
         ["a"; "b"; "c"; "d"; "e"; "f"; "g"; "h"; "i"].

(** Whether the upstream knows the identity's account. *)
Definition resolves (up : Upstream) (p : ApiRoutes.Identity) : bool :=
  match accountApi up (ApiRoutes.id_gameName p) (ApiRoutes.id_tagLine p) 0 with
  | Returned _ => true
  | Thrown _ => false
  end.

Definition player (name : string) (score : Q) (t j m b u : Z) : PlayerStats :=
  {| gameName := name; tagLine := "KR1"; puuid := name;
     avgKills := 0; avgDeaths := 0; avgAssists := 0; avgCS := 0;
     kda := 0; winRate := 0; preferredLane := "TOP";
     laneDistribution :=
       {| cTOP := t; cJUNGLE := j; cMIDDLE := m; cBOTTOM := b; cUTILITY := u |};
     totalGames := 0; teamContribution := score; tierInfo := None |}.

(** Ten players; the last four have no recorded game in any role. *)
Definition tenPlayers : list PlayerStats :=
  [ player "p0" 1500 9 0 3 0 0; player "p1" 2100 0 12 0 0 1;
    player "p2" 900 2 0 10 0 0; player "p3" 1800 0 0 0 15 2;
    player "p4" 1200 0 1 0 3 14; player "p5" 1650 7 7 0 0 0;
    player "p6" 0 0 0 0 0 0; player "p7" 0 0 0 0 0 0;
    player "p8" 1200 0 0 0 0 0; player "p9" 1200 0 0 0 0 0 ].

Definition teamsOf (r : TeamMaker.Result (list Team)) : list Team :=
  match r with
  | TeamMaker.Ok teams => teams
  | TeamMaker.Raise _ => []
  end.

Definition tenTeams : list Team :=
  Eval vm_compute in teamsOf (TeamMaker.divideIntoTeams tenPlayers).

Definition entry (t r : string) (lp : Z) : LeagueEntry :=
  {| queueType := "RANKED_SOLO_5x5"; tier := t; rank := r;
     leaguePoints := lp; wins := 0; losses := 0 |}.

End Sample.

(** * Specification-side definitions *)

Module Spec.

Import RiotApi.

(** *** Snake draft *)

(** The team that the snake order gives to the pick with index [i] among
    [t] teams. *)
Definition snake (t i : nat) : nat :=
  let j := i mod (2 * t) in
  if Nat.ltb j t then j else 2 * t - 1 - j.

(** The players of [l], numbered from [d], whose pick belongs to team [k]. *)
Fixpoint pick (t k d : nat) (l : list PlayerStats) : list PlayerStats :=
  match l with
  | [] => []
  | p :: l' =>
      if Nat.eqb (snake t d) k then p :: pick t k (S d) l' else pick t k (S d) l'
  end.

(** The positions, in the sorted list, of the five picks of team [k]. *)
Definition picksOf (t k : nat) : list nat :=
  [k; 2 * t - 1 - k; 2 * t + k; 4 * t - 1 - k; 4 * t + k].

Definition addPlayers (team : Team) (ps : list PlayerStats) : Team :=
  {| teamNumber := teamNumber team; players := players team ++ ps;
     avgTeamScore := avgTeamScore team; teamLanes := teamLanes team |}.

(** Team [k] (from 0) as the draft leaves it. *)
Definition drafted (t : nat) (sortedPlayers : list PlayerStats) (k : nat) : Team :=
  {| teamNumber := k + 1; players := pick t k 0 sortedPlayers;
     avgTeamScore := 0; teamLanes := TeamMaker.noLanes |}.

(** Descending by contribution. *)
Definition descending (l : list PlayerStats) : Prop :=
  StronglySorted (fun a b => (teamContribution b <= teamContribution a)%Q) l.

(** *** Lane assignment *)

(** The occupants of the five roles, in role order. *)
Definition occupants (a : LaneAssignment) : list (option PlayerStats) :=
  map (TeamMaker.getLane a) TeamMaker.lanes.

(** The players that hold a role. *)
Definition placed (a : LaneAssignment) : list PlayerStats :=
  omap id (occupants a).

(** The players with a role and the players without one are, together,
    the members of the team. *)
Definition covers (ps : list PlayerStats) (st : LaneAssignment * list PlayerStats) : Prop :=
  placed (fst st) ++ snd st ≡ₚ ps.

(** A role is settled when it has an occupant or nobody is left. *)
Definition settled (st : LaneAssignment * list PlayerStats) (lane : Lane) : Prop :=
  is_Some (TeamMaker.getLane (fst st) lane) \/ snd st = [].

(** *** Preferred lane *)

Definition laneIndex (l : Lane) : nat :=
  match l with TOP => 0 | JUNGLE => 1 | MIDDLE => 2 | BOTTOM => 3 | UTILITY => 4 end.

(** The preferred lane is the first role, in enumeration order, with the
    highest count. *)
Definition firstMostPlayed (s : PlayerStats) : Prop :=
  exists lane,
    preferredLane s = laneName lane
    /\ (forall l, (laneGames (laneDistribution s) l
                   <= laneGames (laneDistribution s) lane)%Z)
    /\ (forall l, laneIndex l < laneIndex lane ->
                  (laneGames (laneDistribution s) l
                   < laneGames (laneDistribution s) lane)%Z).

Definition laneKeys : list string := ["TOP"; "JUNGLE"; "MIDDLE"; "BOTTOM"; "UTILITY"].

(** *** Fetcher *)

(** The wait that a rejected run causes before the job is run again. *)
Definition backoffOf (e : ApiError) : Z :=
  match onFailed e with
  | Some retry => retryDelay retry
  | None => 0%Z
  end.

(** The world after the further events [evs]. *)
Definition after (w : World) (evs : list Event) : World :=
  {| trace := trace w ++ evs; matchCache := matchCache w |}.




Definition throttledAnswer {A} (o : Outcome A) : bool :=
  match o with
  | Returned _ => false
  | Thrown e => is429 e
  end.




(** A whole number of hundredths: a number of two decimals. *)
Definition hundredths (x : Q) : Prop :=
  exists k : Z, (x == inject_Z k / 100)%Q.


(** An answer function that throttles at most [K] times in a row. *)
Definition relents {A} (K : nat) (api : nat -> Outcome A) : Prop :=
  forall a, exists j, j <= K /\ throttledAnswer (api (a + j)) = false.

(** An upstream that throttles no request more than [K] times in a row. *)
Definition boundedThrottle (K : nat) (up : Upstream) : Prop :=
  (forall g t, relents K (accountApi up g t))
  /\ (forall p, relents K (leagueApi up p))
  /\ (forall p c, relents K (matchIdsApi up p c))
  /\ (forall m, relents K (matchApi up m)).

(** A computation that settles from every world. *)
Definition settles {C} (m : M C) : Prop :=
  forall w, exists out w', m w = Some (out, w').

(** A computation that, when it settles, has not thrown. *)
Definition noThrow {C} (m : M C) : Prop :=
  forall w out w', m w = Some (out, w') -> exists c, out = Returned c.

End Spec.
Import Spec.

(** * The other handlers of [api.routes.ts] *)

Module PlayerRoutes.

Import RiotApi ApiRoutes.

(** [GET /player/:gameName/:tagLine] answers with the stats, or with
    status 400 when the analysis throws. *)
Inductive PlayerResponse :=
| PlayerData (data : PlayerStats)
| PlayerBadRequest (e : ApiError).

Section Handlers.

Context (log10 : Q -> Q) (up : Upstream) (retries : nat).

Definition getPlayer (gameName tagLine : string) : World -> option (PlayerResponse * World) :=
  fun w =>
    match analyzePlayerStats log10 up retries gameName tagLine w with
    | None => None
    | Some (Returned playerStats, w') => Some (PlayerData playerStats, w')
    | Some (Thrown error, w') => Some (PlayerBadRequest error, w')
    end.

(** The object that stands for a failed analysis in [POST /players];
    it is told from stats by its [error] key. *)
Record FailedPlayer := {
  fp_gameName : string;
  fp_tagLine : string;
  fp_error : ApiError
}.

(** [POST /players] answers with status 400 for an empty list, with the
    two lists and the three counts, or with status 500 when something
    throws. *)
Inductive PlayersResponse :=
| PlayersBadRequest
| PlayersData (successful : list PlayerStats) (failed : list FailedPlayer)
              (totalRequested totalSuccessful totalFailed : nat)
| PlayersError (e : ApiError).

(** [analyzePlayerStats(gameName, tagLine).catch(error => ({ error: true, ... }))]. *)
Definition analyzeOrError (p : Identity) : M (PlayerStats + FailedPlayer) :=
  catch (let* stats := analyzePlayerStats log10 up retries
                         (id_gameName p) (id_tagLine p) in
         ret (inl stats))
        (fun error => inr {| fp_gameName := id_gameName p;
                             fp_tagLine := id_tagLine p;
                             fp_error := error |}).

(** The body of [POST /players] for a body whose [players] is an array;
    the results are in the order of the request, as [Promise.all] gives
    them. *)
Definition postPlayers (players : list Identity) : World -> option (PlayersResponse * World) :=
  fun w =>
    if Nat.eqb (length players) 0 then Some (PlayersBadRequest, w)
    else
      match mapM analyzeOrError players w with
      | None => None
      | Some (Thrown e, w') => Some (PlayersError e, w')
      | Some (Returned results, w') =>
          let successful :=
            omap (fun r => match r with inl stats => Some stats | inr _ => None end)
                 results in
          let failed :=
            omap (fun r => match r with inl _ => None | inr f => Some f end) results in
          Some (PlayersData successful failed
                  (length players) (length successful) (length failed), w')
      end.

End Handlers.

End PlayerRoutes.

(** * The limit on [POST /divide-teams] *)

Module TeamMakerLimiter.

Import RiotApi ApiRoutes.

(** [rateLimit({ windowMs: 2 * 60 * 1000, max: 1, ... })]: the
    middleware counts the requests of each client, by address, in the
    client's current window of two minutes; every request counts, whatever
    is answered to it. *)
Definition max : nat := 1.

(** The requests of a client in its current window, from the counts
    that the limiter keeps by client. *)
Definition hitsOf (hits : gmap string nat) (client : string) : nat :=
  default 0 (hits !! client).

(** The end of a client's window clears its count. *)
Definition windowEnds (client : string) (hits : gmap string nat) : gmap string nat :=
  delete client hits.

(** What the route answers: status 429 with the limiter's message, or
    what the handler answers. *)
Inductive RouteResponse :=
| TooManyRequests
| Handled (response : Response).

Section Route.

Context (log10 sqrt : Q -> Q) (up : Upstream) (retries : nat).

(** [router.post('/divide-teams', teamMakerLimiter, handler)]: the
    request is counted, and the handler runs only when the count does not
    exceed [max]. *)
Definition postDivideTeams (client : string) (players : list Identity)
    (completion : list nat)
    : gmap string nat * World -> option (RouteResponse * (gmap string nat * World)) :=
  fun st =>
    let totalHits := S (hitsOf (fst st) client) in
    let hits := <[client := totalHits]> (fst st) in
    if Nat.ltb max totalHits then Some (TooManyRequests, (hits, snd st))
    else
      match divideTeams log10 sqrt up retries players completion (snd st) with
      | None => None
      | Some (response, w') => Some (Handled response, (hits, w'))
      end.

End Route.

End TeamMakerLimiter.

(** * Further specification-side definitions *)

Module SpecMore.

Import RiotApi.

(** The identity that a record of stats was computed for. *)
Definition identityOf (s : PlayerStats) : ApiRoutes.Identity :=
  {| ApiRoutes.id_gameName := gameName s; ApiRoutes.id_tagLine := tagLine s |}.

(** Whether a player's contribution is the score [c]. *)
Definition sameScore (c : Q) (p : PlayerStats) : bool :=
  Qeq_bool (teamContribution p) c.

(** A player's recorded games in a role. *)
Definition gamesIn (lane : Lane) (p : PlayerStats) : Z :=
  laneGames (laneDistribution p) lane.

(** A square root that is exact on the squares of rationals. *)
Definition exactOnSquares (sqrt : Q -> Q) : Prop :=
  forall x y, (0 <= y)%Q -> (x == y * y)%Q -> (sqrt x == y)%Q.

(** The events of [evs] are requests for [req] and back-off waits. *)
Definition concerns (req : Request) (evs : list Event) : Prop :=
  Forall (fun ev => ev = Called req \/ exists d, ev = Waited d) evs.

(** Between [w] and [w'] no entry of the match cache has been dropped or
    replaced, and no match that [w] has cached has been requested. *)
Definition cacheKept (w w' : World) : Prop :=
  forall matchId o,
    matchCache w !! matchId = Some o ->
    matchCache w' !! matchId = Some o
    /\ attempts w' (MatchById matchId) = attempts w (MatchById matchId).

(** Moreover, every match requested between [w] and [w'] is cached in
    [w'] with a promise that has resolved. *)
Definition cacheTidy (w w' : World) : Prop :=
  cacheKept w w'
  /\ forall matchId,
       attempts w' (MatchById matchId) <> attempts w (MatchById matchId) ->
       exists m, matchCache w' !! matchId = Some (Returned m).

(** A computation all of whose runs relate the worlds before and after
    by [R]. *)
Definition respects {C} (R : World -> World -> Prop) (m : M C) : Prop :=
  forall w out w', m w = Some (out, w') -> R w w'.

(** What [await] in a [try] whose handler returns [null] makes of a
    cached promise. *)
Definition awaited (o : Outcome (option MatchDto)) : option MatchDto :=
  match o with
  | Returned m => m
  | Thrown _ => None
  end.

(** A printable ASCII character other than the space, the signs and
    the decimal digits: no numeral begins with it. *)
Definition noNumeralStart (c : ascii) : bool :=
  let n := nat_of_ascii c in
  Nat.ltb 32 n && Nat.ltb n 127
  && negb (Ascii.eqb c "+") && negb (Ascii.eqb c "-")
  && negb (Nat.leb 48 n && Nat.leb n 57).

(** No two different members have the same contribution. *)
Definition scoresTellApart (ps : list PlayerStats) : Prop :=
  forall a b, a ∈ ps -> b ∈ ps -> (teamContribution a == teamContribution b)%Q -> a = b.

(** The sum of the counts of a [laneCount] object. *)
Definition countsTotal (o : list (string * Z)) : Z :=
  fold_right Z.add 0%Z (map snd o).

(** Ten players with ten different contributions, 0 to 900. *)
Definition ladder : list PlayerStats :=
  map (fun k => Sample.player (String (ascii_of_nat (97 + k)) EmptyString)
                 (inject_Z (Z.of_nat k) * 100) 1 0 0 0 0)
      (seq 0 10).

(** Each tier below the apex with the tier that follows it. *)
Definition promotions : list (string * string) :=
  [ ("BRONZE", "SILVER"); ("SILVER", "GOLD"); ("GOLD", "PLATINUM");
    ("PLATINUM", "EMERALD"); ("EMERALD", "DIAMOND"); ("DIAMOND", "MASTER") ].

(** Each division with the next higher one. *)
Definition divisionSteps : list (string * string) :=
  [ ("IV", "III"); ("III", "II"); ("II", "I") ].

(** A league entry of a tier and division with some league points; the
    other fields are arbitrary. *)
Definition ranked (like : LeagueEntry) (t r : string) (lp : Z) : LeagueEntry :=
  {| queueType := queueType like; tier := t; rank := r; leaguePoints := lp;
     wins := wins like; losses := losses like |}.

End SpecMore.
Import SpecMore.

(** * Properties *)

Local Open Scope list_scope.

(** ** Tier score *)

Section TierScore.

Import RiotApi.

Import Sample.

Lemma tier_unranked : calculateTierScore None = 1200%Z.
Proof. reflexivity. Qed.

(** The base of every tier but IRON is the one in [TIER_SCORES]. *)
Lemma tier_base_nonzero (t : string) (base : Z) :
  In (t, base) (tl TIER_SCORES) ->
  Js.orNum (Js.prop TIER_SCORES t) 1200 = base.
Proof.
  cbn. intros H.
  repeat (destruct H as [H | H]; [inversion H; subst; reflexivity |]).
  contradiction.
Qed.

Lemma tier_sub_apex (t r : string) (lp base off : Z) :
  In (t, base) [ ("BRONZE", 400); ("SILVER", 800); ("GOLD", 1200);
                 ("PLATINUM", 1600); ("EMERALD", 2000); ("DIAMOND", 2400) ]%Z ->
  In (r, off) RANK_SCORES ->
  calculateTierScore (Some (entry t r lp)) = (base + off + lp)%Z.
Proof.
  cbn. intros Ht Hr.
  repeat (destruct Ht as [Ht | Ht]; [inversion Ht; subst; clear Ht |]);
    try contradiction;
    repeat (destruct Hr as [Hr | Hr]; [inversion Hr; subst; reflexivity |]);
    contradiction.
Qed.

Lemma tier_apex (t r : string) (lp : Z) :
  In t ["MASTER"; "GRANDMASTER"; "CHALLENGER"] ->
  calculateTierScore (Some (entry t r lp)) = (2800 + lp)%Z.
Proof.
  cbn. intros Ht.
  repeat (destruct Ht as [Ht | Ht]; [subst; reflexivity |]).
  contradiction.
Qed.

(** C1 (the code departs from the claim): an IRON entry does not get
    the base 0 of [TIER_SCORES].  The table value 0 is falsy, so
    [TIER_SCORES[tier] || 1200] replaces it by 1200, and every IRON
    entry scores 1200 plus its division offset and league points, the
    same as a GOLD entry. *)
Theorem calculateTierScore_iron (q r : string) (lp w l : Z) :
  calculateTierScore
    (Some {| queueType := q; tier := "IRON"; rank := r;
             leaguePoints := lp; wins := w; losses := l |})
  = (1200 + Js.orNum (Js.prop RANK_SCORES r) 0 + lp)%Z
  /\ calculateTierScore (Some (entry "IRON" "IV" 0)) = 1200%Z
  /\ calculateTierScore (Some (entry "IRON" "IV" 0))
     = calculateTierScore (Some (entry "GOLD" "IV" 0)).
Proof. repeat split; reflexivity. Qed.

End TierScore.

(** ** Snake draft *)

Section Draft.

Import TeamMaker.

Lemma snake_lt t i : 0 < t -> snake t i < t.
Proof.
  intros Ht. unfold snake.
  pose proof (Nat.mod_upper_bound i (2 * t) ltac:(lia)) as Hm.
  destruct (Nat.ltb_spec (i mod (2 * t)) t); lia.
Qed.

Lemma draftOrder_length t : length (draftOrderOf t) = 2 * t.
Proof. unfold draftOrderOf. rewrite length_app, length_reverse, !length_seq. lia. Qed.

Lemma draftPick_snake t i : 0 < t -> draftPick (draftOrderOf t) i = Some (snake t i).
Proof.
  intros Ht. unfold draftPick.
  destruct (draftOrderOf t) eqn:E.
  { apply (f_equal length) in E. rewrite draftOrder_length in E. simpl in E. lia. }
  rewrite <- E, draftOrder_length. unfold snake, draftOrderOf.
  pose proof (Nat.mod_upper_bound i (2 * t) ltac:(lia)) as Hm.
  destruct (Nat.ltb_spec (i mod (2 * t)) t) as [Hlt | Hge].
  - rewrite lookup_app_l by (rewrite length_seq; lia).
    rewrite lookup_seq_lt by lia. reflexivity.
  - rewrite lookup_app_r by (rewrite length_seq; lia).
    rewrite length_seq, reverse_lookup by (rewrite length_seq; lia).
    rewrite length_seq, lookup_seq_lt by lia. f_equal. lia.
Qed.

Lemma pick_app t k l1 l2 d :
  pick t k d (l1 ++ l2) = pick t k d l1 ++ pick t k (d + length l1) l2.
Proof.
  revert d. induction l1 as [| p l1 IH]; intros d; simpl.
  - f_equal. lia.
  - rewrite IH. replace (S d + length l1) with (d + S (length l1)) by lia.
    destruct (Nat.eqb (snake t d) k); reflexivity.
Qed.

Lemma pick_none t k l d :
  (forall j, j < length l -> snake t (d + j) <> k) -> pick t k d l = [].
Proof.
  revert d. induction l as [| p l IH]; intros d H; simpl; [reflexivity |].
  destruct (Nat.eqb_spec (snake t d) k) as [E | _].
  - exfalso. apply (H 0); simpl; [lia | rewrite Nat.add_0_r; exact E].
  - apply IH. intros j Hj. replace (S d + j) with (d + S j) by lia.
    apply H. simpl. lia.
Qed.

Lemma pick_single t k l d x p :
  l !! x = Some p ->
  (forall j, j < length l -> snake t (d + j) = k <-> j = x) ->
  pick t k d l = [p].
Proof.
  revert d x. induction l as [| q l IH]; intros d x Hx H; [discriminate |].
  simpl. destruct x as [| x]; simpl in Hx.
  - injection Hx as ->.
    destruct (Nat.eqb_spec (snake t d) k) as [_ | N].
    + f_equal. apply pick_none. intros j Hj E.
      replace (S d + j) with (d + S j) in E by lia.
      apply H in E; simpl; lia.
    + exfalso. apply N. specialize (H 0). rewrite Nat.add_0_r in H.
      apply H; simpl; lia.
  - destruct (Nat.eqb_spec (snake t d) k) as [E | _].
    + specialize (H 0). rewrite Nat.add_0_r in H. apply H in E; simpl; lia.
    + apply (IH (S d) x Hx). intros j Hj.
      replace (S d + j) with (d + S j) by lia.
      rewrite (H (S j)) by (simpl; lia). lia.
Qed.

Lemma snake_even t q j : j < t -> snake t (2 * q * t + j) = j.
Proof.
  intros Hj. unfold snake.
  assert (E : (2 * q * t + j) mod (2 * t) = j).
  { symmetry. apply (Nat.mod_unique _ _ q); lia. }
  rewrite E. destruct (Nat.ltb_spec j t); lia.
Qed.

Lemma snake_odd t q j : j < t -> snake t ((2 * q + 1) * t + j) = t - 1 - j.
Proof.
  intros Hj. unfold snake.
  assert (E : ((2 * q + 1) * t + j) mod (2 * t) = t + j).
  { symmetry. apply (Nat.mod_unique _ _ q); lia. }
  rewrite E. destruct (Nat.ltb_spec (t + j) t); lia.
Qed.

Lemma pick_chunk_even t k l d q p :
  d = 2 * q * t -> length l = t -> l !! k = Some p -> pick t k d l = [p].
Proof.
  intros -> Hl Hp. apply (pick_single _ _ _ _ k); [exact Hp |].
  intros j Hj. rewrite snake_even by lia. lia.
Qed.

Lemma pick_chunk_odd t k l d q p :
  d = (2 * q + 1) * t -> length l = t -> k < t -> l !! (t - 1 - k) = Some p ->
  pick t k d l = [p].
Proof.
  intros -> Hl Hk Hp. apply (pick_single _ _ _ _ (t - 1 - k)); [exact Hp |].
  intros j Hj. rewrite snake_odd by lia. lia.
Qed.

Lemma pick_app_len t k l1 l2 d n :
  length l1 = n -> pick t k d (l1 ++ l2) = pick t k d l1 ++ pick t k (d + n) l2.
Proof. intros <-. apply pick_app. Qed.

Lemma chunk_lookup (l : list PlayerStats) t m i :
  i < t -> take t (drop (m * t) l) !! i = l !! (m * t + i).
Proof. intros Hi. rewrite lookup_take_lt by lia. apply lookup_drop. Qed.

Lemma chunks_split (l : list PlayerStats) t :
  l = take t (drop (0 * t) l) ++ take t (drop (1 * t) l) ++ take t (drop (2 * t) l)
      ++ take t (drop (3 * t) l) ++ drop (4 * t) l.
Proof.
  rewrite <- (take_drop t l) at 1. simpl drop at 1. f_equal.
  rewrite <- (take_drop t (drop t l)) at 1. rewrite Nat.mul_1_l. f_equal.
  rewrite drop_drop.
  rewrite <- (take_drop t (drop (t + t) l)) at 1.
  replace (2 * t) with (t + t) by lia. f_equal.
  rewrite drop_drop.
  rewrite <- (take_drop t (drop (t + t + t) l)) at 1.
  replace (3 * t) with (t + t + t) by lia. f_equal.
  rewrite drop_drop. f_equal. lia.
Qed.

(** The five picks of a team in a draft of [5 * t] players. *)
Lemma pick_five t k (l : list PlayerStats) :
  k < t -> length l = 5 * t ->
  Some <$> pick t k 0 l = (fun i => l !! i) <$> picksOf t k.
Proof.
  intros Hk Hl. unfold picksOf. cbn [fmap list_fmap].
  destruct (lookup_lt_is_Some_2 l k) as [p0 H0]; [lia |].
  destruct (lookup_lt_is_Some_2 l (2 * t - 1 - k)) as [p1 H1]; [lia |].
  destruct (lookup_lt_is_Some_2 l (2 * t + k)) as [p2 H2]; [lia |].
  destruct (lookup_lt_is_Some_2 l (4 * t - 1 - k)) as [p3 H3]; [lia |].
  destruct (lookup_lt_is_Some_2 l (4 * t + k)) as [p4 H4]; [lia |].
  rewrite H0, H1, H2, H3, H4.
  assert (E : pick t k 0 l = [p0; p1; p2; p3; p4]); [| rewrite E; reflexivity].
  rewrite (chunks_split l t).
  assert (Hc : forall m, m < 4 -> length (take t (drop (m * t) l)) = t).
  { intros m Hm. rewrite length_take, length_drop.
    destruct m as [| [| [| [|]]]]; lia. }
  rewrite (pick_app_len t k _ _ 0 t) by (apply Hc; lia).
  rewrite (pick_app_len t k _ _ _ t) by (apply Hc; lia).
  rewrite (pick_app_len t k _ _ _ t) by (apply Hc; lia).
  rewrite (pick_app_len t k _ _ _ t) by (apply Hc; lia).
  rewrite (pick_chunk_even t k _ 0 0 p0); [| lia | apply Hc; lia |].
  2:{ rewrite chunk_lookup by lia. rewrite <- H0. f_equal. }
  rewrite (pick_chunk_odd t k _ _ 0 p1); [| lia | apply Hc; lia | lia |].
  2:{ rewrite chunk_lookup by lia. rewrite <- H1. f_equal. lia. }
  rewrite (pick_chunk_even t k _ _ 1 p2); [| lia | apply Hc; lia |].
  2:{ rewrite chunk_lookup by lia. rewrite <- H2. f_equal. }
  rewrite (pick_chunk_odd t k _ _ 1 p3); [| lia | apply Hc; lia | lia |].
  2:{ rewrite chunk_lookup by lia. rewrite <- H3. f_equal. lia. }
  rewrite (pick_chunk_even t k _ _ 2 p4); [| lia | rewrite length_drop; lia |].
  2:{ rewrite lookup_drop. exact H4. }
  reflexivity.
Qed.

Lemma addPlayers_nil team : addPlayers team [] = team.
Proof. destruct team. unfold addPlayers. simpl. rewrite app_nil_r. reflexivity. Qed.

Lemma addPlayers_push team p ps :
  addPlayers (pushPlayer team p) ps = addPlayers team (p :: ps).
Proof. unfold addPlayers, pushPlayer. simpl. rewrite <- app_assoc. reflexivity. Qed.

(** The draft loop hands every player to the team of its snake index. *)
Lemma draft_spec t sortedPlayers d teams :
  0 < t -> length teams = t ->
  draft (draftOrderOf t) sortedPlayers d teams
  = Ok (imap (fun k team => addPlayers team (pick t k d sortedPlayers)) teams).
Proof.
  intros Ht. revert d teams.
  induction sortedPlayers as [| player rest IH]; intros d teams Hlen; simpl.
  - f_equal. apply list_eq. intros i. rewrite list_lookup_imap.
    destruct (teams !! i); simpl; [rewrite addPlayers_nil |]; reflexivity.
  - rewrite draftPick_snake by exact Ht.
    pose proof (snake_lt t d Ht) as Hs.
    destruct (lookup_lt_is_Some_2 teams (snake t d)) as [team Hteam]; [lia |].
    rewrite Hteam, IH by (rewrite length_insert; exact Hlen).
    f_equal. apply list_eq. intros i. rewrite !list_lookup_imap.
    destruct (Nat.eqb_spec (snake t d) i) as [E | N].
    + subst i. rewrite list_lookup_insert_eq by lia. rewrite Hteam. simpl.
      rewrite addPlayers_push. reflexivity.
    + rewrite list_lookup_insert_ne by exact N. reflexivity.
Qed.

End Draft.

(** ** Sorting *)

Section Sorting.

Import TeamMaker.

Lemma Qgtb_true a b : RiotApi.Qgtb a b = true <-> (b < a)%Q.
Proof.
  unfold RiotApi.Qgtb. rewrite negb_true_iff.
  destruct (Qle_bool a b) eqn:E.
  - apply Qle_bool_iff in E. split; [discriminate | intros H; lra].
  - split; [intros _ | reflexivity].
    apply Qnot_le_lt. intros H. apply Qle_bool_iff in H. congruence.
Qed.

Lemma Qgtb_false a b : RiotApi.Qgtb a b = false <-> (a <= b)%Q.
Proof.
  unfold RiotApi.Qgtb. rewrite negb_false_iff. apply Qle_bool_iff.
Qed.

Lemma insertSorted_perm cmp x l : insertSorted cmp x l ≡ₚ x :: l.
Proof.
  induction l as [| y l IH]; simpl; [reflexivity |].
  destruct (RiotApi.Qgtb (cmp x y) 0); [| reflexivity].
  rewrite IH. apply perm_swap.
Qed.

Lemma sort_perm cmp l : sort cmp l ≡ₚ l.
Proof.
  induction l as [| x l IH]; simpl; [reflexivity |].
  rewrite insertSorted_perm. apply perm_skip. exact IH.
Qed.

Lemma sort_length cmp l : length (sort cmp l) = length l.
Proof. apply Permutation_length, sort_perm. Qed.

Lemma insertSorted_descending x l :
  descending l -> descending (insertSorted byContribution x l).
Proof.
  unfold descending. induction l as [| y l IH]; intros Hs; simpl.
  - repeat constructor.
  - apply StronglySorted_inv in Hs as [Hl Hy].
    destruct (RiotApi.Qgtb (byContribution x y) 0) eqn:E.
    + apply Qgtb_true in E. unfold byContribution in E.
      constructor; [apply IH, Hl |].
      rewrite Forall_forall. intros z Hz.
      rewrite insertSorted_perm in Hz.
      apply elem_of_cons in Hz as [-> | Hz]; [lra |].
      rewrite Forall_forall in Hy. apply Hy, Hz.
    + apply Qgtb_false in E. unfold byContribution in E.
      constructor; [constructor; assumption |].
      constructor; [lra |].
      rewrite Forall_forall in Hy |- *. intros z Hz.
      specialize (Hy z Hz). simpl in Hy. lra.
Qed.

Lemma sort_descending l : descending (sort byContribution l).
Proof.
  induction l as [| x l IH]; simpl; [constructor |].
  apply insertSorted_descending, IH.
Qed.

End Sorting.

(** ** Division *)

Section Division.

Import TeamMaker.

Lemma concat_one_more (g : nat -> list PlayerStats) p s ks :
  NoDup ks -> s ∈ ks ->
  concat (map (fun k => if Nat.eqb s k then p :: g k else g k) ks)
  ≡ₚ p :: concat (map g ks).
Proof.
  induction ks as [| k ks IH]; intros Hnd Hs.
  - apply elem_of_nil in Hs. contradiction.
  - apply NoDup_cons in Hnd as [Hk Hnd]. simpl.
    destruct (Nat.eqb_spec s k) as [-> | N].
    + simpl. apply perm_skip. apply Permutation_app_head.
      assert (E : map (fun k0 => if Nat.eqb k k0 then p :: g k0 else g k0) ks = map g ks).
      { apply map_ext_in. intros j Hj. apply list_elem_of_In in Hj.
        destruct (Nat.eqb_spec k j) as [-> | _]; [contradiction | reflexivity]. }
      rewrite E. reflexivity.
    + apply elem_of_cons in Hs as [-> | Hs]; [contradiction |].
      rewrite (IH Hnd Hs). symmetry. apply Permutation_middle.
Qed.

(** The snake order hands every player to exactly one team. *)
Lemma pick_partition t l d :
  0 < t -> concat (map (fun k => pick t k d l) (seq 0 t)) ≡ₚ l.
Proof.
  intros Ht. revert d. induction l as [| p l IH]; intros d.
  - simpl. induction (seq 0 t); simpl; [reflexivity | assumption].
  - simpl pick.
    rewrite (concat_one_more (fun k => pick t k (S d) l) p (snake t d)).
    + apply perm_skip, IH.
    + apply NoDup_seq.
    + apply elem_of_seq. pose proof (snake_lt t d Ht). lia.
Qed.

Lemma imap_fmap_seq {A B} (f : nat -> A -> B) (g : nat -> A) n :
  imap f (map g (seq 0 n)) = map (fun k => f k (g k)) (seq 0 n).
Proof.
  apply list_eq. intros i. rewrite list_lookup_imap, !list_lookup_fmap.
  destruct (seq 0 n !! i) as [k |] eqn:E; simpl; [| reflexivity].
  apply lookup_seq in E as [-> _]. reflexivity.
Qed.

(** On a valid list the guard passes, the draft never reads a missing
    team, and the result is, team by team, the drafted team with its
    lanes assigned and its average computed. *)
Lemma divideIntoTeams_ok ps :
  10 <= length ps -> length ps mod 5 = 0 ->
  divideIntoTeams ps
  = Ok (map (fun k => withAverage (optimizeLaneDistribution
                        (drafted (length ps / 5) (sort byContribution ps) k)))
            (seq 0 (length ps / 5))).
Proof.
  intros Hn Hm. unfold divideIntoTeams.
  destruct (Nat.ltb_spec (length ps) 10); [lia |].
  rewrite Hm. simpl.
  assert (Ht : 0 < length ps / 5).
  { apply Nat.div_str_pos. lia. }
  rewrite draft_spec by (rewrite ?length_map, ?length_seq; auto).
  rewrite imap_fmap_seq, !map_map. reflexivity.
Qed.

Lemma length_div5 n : n mod 5 = 0 -> n = 5 * (n / 5).
Proof. intros H. pose proof (Nat.div_mod_eq n 5). lia. Qed.

End Division.

(** ** Lane assignment *)

Section Lanes.

Import TeamMaker.

Lemma getLane_setLane a l p : getLane (setLane a l p) l = Some p.
Proof. destruct l; reflexivity. Qed.

Lemma getLane_setLane_ne a l l' p : l <> l' -> getLane (setLane a l p) l' = getLane a l'.
Proof. destruct l, l'; intros N; try reflexivity; contradiction. Qed.

Ltac bubble :=
  first [ reflexivity
        | etransitivity; [| apply perm_swap]; apply perm_skip; bubble ].

Lemma placed_setLane a l p :
  getLane a l = None -> placed (setLane a l p) ≡ₚ p :: placed a.
Proof.
  destruct a as [a1 a2 a3 a4 a5].
  destruct l; simpl; intros E; subst; unfold placed, occupants; simpl;
    repeat match goal with x : option PlayerStats |- _ => destruct x end;
    simpl; bubble.
Qed.

Lemma fold_best_In lane (l : list PlayerStats) best :
  fst (fold_left (keepBest lane) l best) ∈ fst best :: l.
Proof.
  revert best. induction l as [| p l IH]; intros [b0 m0]; simpl.
  - apply list_elem_of_here.
  - destruct (m0 <? laneGames (laneDistribution p) lane)%Z.
    + apply list_elem_of_further, (IH (p, _)).
    + specialize (IH (b0, m0)). apply elem_of_cons in IH as [-> | IH].
      * apply list_elem_of_here.
      * do 2 apply list_elem_of_further. exact IH.
Qed.

Lemma findBest_In players lane best :
  findBestPlayerForLane players lane = Some best -> best ∈ players.
Proof.
  unfold findBestPlayerForLane. destruct players as [| first rest]; [discriminate |].
  pose proof (fold_best_In lane (first :: rest)
                (first, laneGames (laneDistribution first) lane)) as H.
  destruct (fold_left _ _ _) as [b m]. simpl in H.
  destruct (0 <? m)%Z; [| discriminate].
  intros [= <-]. apply elem_of_cons in H as [-> | H]; [apply list_elem_of_here | exact H].
Qed.

Lemma splice_found players best :
  best ∈ players ->
  players ≡ₚ best :: spliceOne (indexOf players best) players.
Proof.
  intros Hin. unfold indexOf.
  destruct (list_find_elem_of (fun q => q = best) players best Hin eq_refl)
    as [[i x] Hf].
  rewrite Hf. simpl.
  apply list_find_Some in Hf as (Hi & -> & _).
  apply delete_Permutation, Hi.
Qed.


Lemma assignBest_covers ps a u lane :
  getLane a lane = None -> covers ps (a, u) -> covers ps (assignBest (a, u) lane).
Proof.
  unfold covers, assignBest. intros Hnone Hc.
  destruct (findBestPlayerForLane u lane) as [best |] eqn:E; [| exact Hc].
  simpl in *. rewrite placed_setLane by exact Hnone.
  rewrite <- Hc. simpl.
  transitivity (placed a ++ best :: spliceOne (indexOf u best) u).
  - apply Permutation_middle.
  - apply Permutation_app_head. symmetry.
    apply splice_found, (findBest_In _ _ _ E).
Qed.

Lemma assignBest_other a u lane lane' :
  lane <> lane' -> getLane (fst (assignBest (a, u) lane)) lane' = getLane a lane'.
Proof.
  intros N. unfold assignBest.
  destruct (findBestPlayerForLane u lane); simpl; [| reflexivity].
  apply getLane_setLane_ne, N.
Qed.

Lemma pass1_covers ps ls st :
  NoDup ls -> (forall l, l ∈ ls -> getLane (fst st) l = None) ->
  covers ps st -> covers ps (fold_left assignBest ls st).
Proof.
  revert st. induction ls as [| l ls IH]; intros [a u] Hnd Hnone Hc; [exact Hc |].
  apply NoDup_cons in Hnd as [Hl Hnd]. cbn [fold_left].
  apply IH; [exact Hnd | |].
  - intros l' Hl'.
    rewrite assignBest_other; [apply Hnone; apply list_elem_of_further, Hl' |].
    intros ->. contradiction.
  - apply assignBest_covers; [apply (Hnone l), list_elem_of_here | exact Hc].
Qed.

Lemma fillEmpty_covers ps st lane : covers ps st -> covers ps (fillEmpty st lane).
Proof.
  destruct st as [a u]. unfold covers, fillEmpty. intros Hc.
  destruct (getLane a lane) eqn:E; [exact Hc |].
  destruct u as [| next rest]; [exact Hc |].
  simpl in *. rewrite placed_setLane by exact E.
  rewrite <- Hc. simpl. apply Permutation_middle.
Qed.

Lemma fillEmpty_settles st lane : settled (fillEmpty st lane) lane.
Proof.
  destruct st as [a u]. unfold settled, fillEmpty.
  destruct (getLane a lane) eqn:E.
  - left. simpl. rewrite E. eauto.
  - destruct u as [| next rest]; [right; reflexivity |].
    left. simpl. rewrite getLane_setLane. eauto.
Qed.

Lemma fillEmpty_keeps st lane lane' : settled st lane' -> settled (fillEmpty st lane) lane'.
Proof.
  destruct st as [a u]. unfold settled, fillEmpty. simpl. intros H.
  destruct (getLane a lane) eqn:E; [exact H |].
  destruct u as [| next rest]; [exact H |].
  destruct H as [H | H]; [| discriminate].
  left. simpl. destruct (decide (lane = lane')) as [-> | N].
  - rewrite getLane_setLane. eauto.
  - rewrite getLane_setLane_ne by exact N. exact H.
Qed.

Lemma pass2_keeps ls st lane : settled st lane -> settled (fold_left fillEmpty ls st) lane.
Proof.
  revert st. induction ls as [| l ls IH]; intros st H; [exact H |].
  simpl. apply IH, fillEmpty_keeps, H.
Qed.

Lemma pass2_settles ls st lane : lane ∈ ls -> settled (fold_left fillEmpty ls st) lane.
Proof.
  revert st. induction ls as [| l ls IH]; intros st H.
  - apply elem_of_nil in H. contradiction.
  - simpl. apply elem_of_cons in H as [-> | H].
    + apply pass2_keeps, fillEmpty_settles.
    + apply IH, H.
Qed.

Lemma pass2_covers ps ls st : covers ps st -> covers ps (fold_left fillEmpty ls st).
Proof.
  revert st. induction ls as [| l ls IH]; intros st H; [exact H |].
  simpl. apply IH, fillEmpty_covers, H.
Qed.

Lemma lane_in_lanes l : l ∈ lanes.
Proof. unfold lanes. destruct l; repeat constructor. Qed.

Lemma lanes_NoDup : NoDup lanes.
Proof. unfold lanes. compute_done. Qed.

(** With five members, the two passes give every role an occupant, and
    the five occupants are the members, each once. *)
Lemma optimize_five team :
  length (players team) = 5 ->
  exists q1 q2 q3 q4 q5,
    teamLanes (optimizeLaneDistribution team)
    = {| aTOP := Some q1; aJUNGLE := Some q2; aMIDDLE := Some q3;
         aBOTTOM := Some q4; aUTILITY := Some q5 |}
    /\ [q1; q2; q3; q4; q5] ≡ₚ players team.
Proof.
  intros Hlen. unfold optimizeLaneDistribution. cbn [teamLanes].
  remember (fold_left fillEmpty lanes
              (fold_left assignBest lanes (noLanes, players team))) as st2 eqn:E2.
  assert (Hc : covers (players team) st2).
  { subst st2. apply pass2_covers, pass1_covers.
    - apply lanes_NoDup.
    - intros l _. destruct l; reflexivity.
    - unfold covers. reflexivity. }
  assert (Hs : forall l, settled st2 l).
  { intros l. subst st2. apply pass2_settles, lane_in_lanes. }
  clear E2. destruct st2 as [a u]. unfold covers, settled in *. simpl in *.
  pose proof (Permutation_length Hc) as HL. rewrite length_app, Hlen in HL.
  pose proof (Hs TOP) as H1. pose proof (Hs JUNGLE) as H2.
  pose proof (Hs MIDDLE) as H3. pose proof (Hs BOTTOM) as H4.
  pose proof (Hs UTILITY) as H5. clear Hs.
  destruct a as [a1 a2 a3 a4 a5]. unfold placed, occupants in *. simpl in *.
  destruct u as [| x u].
  - destruct a1, a2, a3, a4, a5; simpl in HL; try discriminate.
    rewrite app_nil_r in Hc. simpl in Hc.
    do 5 eexists. split; [reflexivity | exact Hc].
  - destruct H1 as [[q1 ->] | ?]; [| discriminate].
    destruct H2 as [[q2 ->] | ?]; [| discriminate].
    destruct H3 as [[q3 ->] | ?]; [| discriminate].
    destruct H4 as [[q4 ->] | ?]; [| discriminate].
    destruct H5 as [[q5 ->] | ?]; [| discriminate].
    simpl in HL. lia.
Qed.

End Lanes.

(** ** The division as a whole *)

Section DivideTheorems.

Import TeamMaker.

Lemma divideIntoTeams_invalid ps :
  length ps < 10 \/ length ps mod 5 <> 0 -> divideIntoTeams ps = Raise InvalidInput.
Proof.
  intros H. unfold divideIntoTeams.
  destruct (Nat.ltb_spec (length ps) 10) as [_ | Hge]; [reflexivity |].
  destruct (Nat.eqb_spec (length ps mod 5) 0) as [E | _]; [lia | reflexivity].
Qed.

Lemma valid_or_not n : (10 <= n /\ n mod 5 = 0) \/ (n < 10 \/ n mod 5 <> 0).
Proof. destruct (Nat.eq_dec (n mod 5) 0); lia. Qed.

(** C2: [divideIntoTeams] throws the error of its guard exactly when the
    list has fewer than 10 players or a length that is not a multiple of
    5; it throws anything at all only in that case, and on every list of
    length [n >= 10] with [n mod 5 = 0] it returns teams. *)
Theorem divideIntoTeams_raises_iff (ps : list PlayerStats) :
  (divideIntoTeams ps = Raise InvalidInput
   <-> (length ps < 10 \/ length ps mod 5 <> 0))
  /\ ((exists e, divideIntoTeams ps = Raise e)
      <-> (length ps < 10 \/ length ps mod 5 <> 0))
  /\ ((exists teams, divideIntoTeams ps = Ok teams)
      <-> (10 <= length ps /\ length ps mod 5 = 0)).
Proof.
  destruct (valid_or_not (length ps)) as [[Hn Hm] | Hbad].
  - pose proof (divideIntoTeams_ok ps Hn Hm) as E. rewrite E.
    split; [| split]; (split; [intros R | intros V]);
      try discriminate; try lia.
    + destruct R as [e R]. discriminate.
    + eauto.
  - pose proof (divideIntoTeams_invalid ps Hbad) as E. rewrite E.
    split; [| split]; (split; [intros R | intros V]);
      try reflexivity; try lia; eauto.
    destruct R as [teams R]. discriminate.
Qed.

Lemma pick_length t k (l : list PlayerStats) :
  k < t -> length l = 5 * t -> length (pick t k 0 l) = 5.
Proof.
  intros Hk Hl. pose proof (pick_five t k l Hk Hl) as H.
  apply (f_equal length) in H. rewrite !length_fmap in H. exact H.
Qed.

(** C4: on a list of [n >= 10] players with [n mod 5 = 0],
    [divideIntoTeams] returns [n / 5] teams of exactly 5 members each; the
    member lists together are a rearrangement of the input (every input
    player is in exactly one team, and the teams are pairwise disjoint
    when the input has no repetition); the players are taken from the
    stable descending sort by contribution, and the pick with index [i]
    goes to team [draftOrder[i mod 2t]], the order being [0 .. t-1]
    followed by [t-1 .. 0]: team [k] holds the sorted players at positions
    [k], [2t-1-k], [2t+k], [4t-1-k] and [4t+k], in this order. *)
Theorem divideIntoTeams_snake (ps : list PlayerStats) :
  10 <= length ps -> length ps mod 5 = 0 ->
  let t := length ps / 5 in
  let sorted := sort byContribution ps in
  exists teams,
    divideIntoTeams ps = Ok teams
    /\ length teams = t
    /\ (forall team, team ∈ teams -> length (players team) = 5)
    /\ concat (map players teams) ≡ₚ ps
    /\ (NoDup ps -> NoDup (concat (map players teams)))
    /\ sorted ≡ₚ ps /\ descending sorted
    /\ (forall k team, teams !! k = Some team ->
          teamNumber team = k + 1
          /\ players team = pick t k 0 sorted
          /\ Some <$> players team = (fun i => sorted !! i) <$> picksOf t k)
    /\ (forall i, draftPick (draftOrderOf t) i = Some (snake t i)).
Proof.
  intros Hn Hm t sorted.
  assert (Ht : 0 < t) by (apply Nat.div_str_pos; lia).
  assert (Hlen : length sorted = 5 * t).
  { unfold sorted. rewrite sort_length. apply length_div5, Hm. }
  eexists. split; [apply divideIntoTeams_ok; assumption |]. fold t sorted.
  assert (Hteam : forall k team,
             map (fun k => withAverage (optimizeLaneDistribution (drafted t sorted k)))
                 (seq 0 t) !! k = Some team ->
             k < t /\ team = withAverage (optimizeLaneDistribution (drafted t sorted k))).
  { intros k team H. rewrite list_lookup_fmap in H.
    destruct (seq 0 t !! k) as [j |] eqn:E; [| discriminate].
    apply lookup_seq in E as [-> E]. simpl in H. injection H as <-. auto. }
  assert (Hcat : concat (map players
                 (map (fun k => withAverage (optimizeLaneDistribution (drafted t sorted k)))
                      (seq 0 t))) ≡ₚ ps).
  { rewrite map_map. simpl. rewrite pick_partition by exact Ht. apply sort_perm. }
  repeat split.
  - rewrite length_map, length_seq. reflexivity.
  - intros team Hin. apply list_elem_of_lookup in Hin as [k Hk].
    apply Hteam in Hk as [Hk ->]. simpl. apply pick_length; assumption.
  - exact Hcat.
  - intros Hnd. rewrite Hcat. exact Hnd.
  - apply sort_perm.
  - apply sort_descending.
  - apply Hteam in H as [_ ->]. reflexivity.
  - apply Hteam in H as [_ ->]. reflexivity.
  - apply Hteam in H as [Hk ->]. simpl. apply pick_five; assumption.
  - intros i. apply draftPick_snake, Ht.
Qed.

(** C10: in every team that [divideIntoTeams] returns (it has exactly 5
    members), each of the five roles TOP, JUNGLE, MIDDLE, BOTTOM and
    UTILITY has an occupant, and the five occupants are the five members,
    each in exactly one role; no role is left empty, whatever the
    members' recorded games are. *)
Theorem lanes_all_filled (ps : list PlayerStats) (teams : list Team) (team : Team) :
  divideIntoTeams ps = Ok teams -> team ∈ teams ->
  length (players team) = 5
  /\ exists q1 q2 q3 q4 q5,
       teamLanes team
       = {| aTOP := Some q1; aJUNGLE := Some q2; aMIDDLE := Some q3;
            aBOTTOM := Some q4; aUTILITY := Some q5 |}
       /\ [q1; q2; q3; q4; q5] ≡ₚ players team.
Proof.
  intros Hdiv Hin.
  destruct (valid_or_not (length ps)) as [[Hn Hm] | Hbad].
  2:{ rewrite divideIntoTeams_invalid in Hdiv by exact Hbad. discriminate. }
  rewrite divideIntoTeams_ok in Hdiv by assumption. injection Hdiv as <-.
  apply list_elem_of_fmap in Hin as (k & -> & Hk).
  apply elem_of_seq in Hk.
  assert (H5 : length (players (drafted (length ps / 5) (sort byContribution ps) k)) = 5).
  { simpl. apply pick_length; [lia |]. rewrite sort_length. apply length_div5, Hm. }
  split; [exact H5 |].
  apply optimize_five in H5. exact H5.
Qed.

End DivideTheorems.

(** ** The fetcher *)

Section Fetcher.

Import RiotApi.


Context {A B : Type} (api : nat -> Outcome A) (req : Request)
        (data : A -> B) (fallback : B).

Lemma schedule_S {C} n (job : M C) w :
  schedule (S n) job w
  = match job w with
    | None => None
    | Some (Returned a, w') => Some (Returned a, w')
    | Some (Thrown e, w') =>
        match onFailed e with
        | Some retry => schedule n job (wait (retryDelay retry) w')
        | None => Some (Thrown e, w')
        end
    end.
Proof. reflexivity. Qed.

Lemma guardedGet_eq w :
  guardedGet api req data fallback w
  = Some (match api (attempts w req) with
          | Returned d => Returned (data d)
          | Thrown e => if is429 e then Thrown e else Returned fallback
          end, after w [Called req]).
Proof.
  unfold guardedGet, axiosGet, after. simpl.
  destruct (api _) as [d | e]; [reflexivity |].
  destruct (is429 e); reflexivity.
Qed.

Lemma attempts_after w evs :
  attempts (after w evs) req
  = attempts w req + count_occ Event_eq_dec evs (Called req).
Proof. unfold attempts, after. simpl. apply count_occ_app. Qed.

Lemma attempts_retried w d :
  attempts (after w [Called req; Waited d]) req = attempts w req + 1.
Proof.
  rewrite attempts_after. f_equal.
  rewrite count_occ_cons_eq by reflexivity.
  rewrite count_occ_cons_neq by discriminate. reflexivity.
Qed.

Lemma after_after w evs evs' : after (after w evs) evs' = after w (evs ++ evs').
Proof. unfold after. simpl. rewrite <- app_assoc. reflexivity. Qed.

Lemma wait_after w evs d : wait d (after w evs) = after w (evs ++ [Waited d]).
Proof. unfold wait, after. simpl. rewrite <- app_assoc. reflexivity. Qed.



(** Whatever the bound, a settled scheduled call has not thrown: the
    body throws 429s only, and the listener answers each with a delay. *)
Lemma schedule_never_throws retries :
  forall w out w',
    schedule retries (guardedGet api req data fallback) w = Some (out, w') ->
    exists b, out = Returned b.
Proof.
  induction retries as [| n IH]; intros w out w' H; [discriminate |].
  rewrite schedule_S, guardedGet_eq in H.
  destruct (api _) as [d | e].
  - injection H as <- _. eauto.
  - destruct (is429 e) eqn:E.
    + unfold onFailed in H. rewrite E in H. eapply IH, H.
    + injection H as <- _. eauto.
Qed.


End Fetcher.

(** ** Analysis *)

Section Analysis.

Import RiotApi.


Lemma increment_keys (o : list (string * Z)) k : map fst (increment o k) = map fst o.
Proof.
  unfold increment. rewrite map_map. apply map_ext. intros [k' v]. simpl.
  destruct (String.eqb k' k); reflexivity.
Qed.

Lemma addMatch_keys p t m : map fst (laneCount (addMatch p t m)) = map fst (laneCount t).
Proof.
  unfold addMatch. destruct (List.find _ _); [| reflexivity]. simpl.
  destruct (_ && _); [apply increment_keys | reflexivity].
Qed.

Lemma aggregate_keys p ms : map fst (laneCount (aggregate p ms)) = laneKeys.
Proof.
  unfold aggregate.
  assert (G : forall t, map fst (laneCount (fold_left (addMatch p) ms t))
                        = map fst (laneCount t)).
  { induction ms as [| m ms IH]; intros t; simpl; [reflexivity |].
    rewrite IH. apply addMatch_keys. }
  rewrite G. reflexivity.
Qed.

Lemma five_counts (o : list (string * Z)) :
  map fst o = laneKeys ->
  exists c1 c2 c3 c4 c5,
    o = [("TOP", c1); ("JUNGLE", c2); ("MIDDLE", c3); ("BOTTOM", c4); ("UTILITY", c5)].
Proof.
  unfold laneKeys. intros H.
  destruct o as [| [k1 c1] [| [k2 c2] [| [k3 c3] [| [k4 c4] [| [k5 c5] [| ? ?]]]]]];
    simpl in H; try discriminate.
  injection H as -> -> -> -> ->. eauto 10.
Qed.

Ltac split_leb :=
  repeat (match goal with
          | |- context [Z.leb ?a ?b] => destruct (Z.leb_spec a b)
          end; cbn).

Lemma firstMost_counts (log10 : Q -> Q) s c1 c2 c3 c4 c5 p :
  preferredLaneOf
    [("TOP", c1); ("JUNGLE", c2); ("MIDDLE", c3); ("BOTTOM", c4); ("UTILITY", c5)]
  = Some p ->
  preferredLane s = p ->
  laneDistribution s
  = {| cTOP := c1; cJUNGLE := c2; cMIDDLE := c3; cBOTTOM := c4; cUTILITY := c5 |} ->
  firstMostPlayed s.
Proof.
  unfold firstMostPlayed. intros Hp -> ->.
  unfold preferredLaneOf, countGe in Hp. cbn in Hp.
  injection Hp as Hp. rewrite <- Hp. clear Hp.
  split_leb; cbn;
    first [ exists TOP; split; [reflexivity |]
          | exists JUNGLE; split; [reflexivity |]
          | exists MIDDLE; split; [reflexivity |]
          | exists BOTTOM; split; [reflexivity |]
          | exists UTILITY; split; [reflexivity |] ];
    split; intros l; destruct l; cbn; lia.
Qed.

(** With at least one match the analysis reaches the scoring step. *)
Lemma scoreMatches_scored log10 g tl account rankInfo matches :
  matches <> [] ->
  exists p,
    preferredLaneOf (laneCount (aggregate (acc_puuid account) matches)) = Some p
    /\ preferredLane (scoreMatches log10 g tl account rankInfo matches) = p
    /\ teamContribution (scoreMatches log10 g tl account rankInfo matches)
       = Js.round2 (finalScoreOf log10 rankInfo
                      (aggregate (acc_puuid account) matches) (length matches) p).
Proof.
  intros Hne. unfold scoreMatches.
  destruct matches as [| m ms]; [contradiction |].
  cbn [length Nat.eqb].
  destruct (five_counts _ (aggregate_keys (acc_puuid account) (m :: ms)))
    as (c1 & c2 & c3 & c4 & c5 & E).
  rewrite E. cbn [preferredLaneOf]. eexists. repeat split.
Qed.

Lemma scoreMatches_firstMost log10 g tl account rankInfo matches :
  firstMostPlayed (scoreMatches log10 g tl account rankInfo matches).
Proof.
  unfold scoreMatches. destruct matches as [| m ms].
  - exists TOP. repeat split; intros l; destruct l; cbn; lia.
  - cbn [length Nat.eqb].
    destruct (five_counts _ (aggregate_keys (acc_puuid account) (m :: ms)))
      as (c1 & c2 & c3 & c4 & c5 & E).
    rewrite E.
    destruct (preferredLaneOf _) as [p |] eqn:Hp; [| discriminate].
    eapply (firstMost_counts log10 _ c1 c2 c3 c4 c5 p Hp); reflexivity.
Qed.

Lemma failedStats_firstMost g tl id : firstMostPlayed (failedStats g tl id).
Proof. exists TOP. repeat split; intros l; destruct l; cbn; lia. Qed.

Lemma tierOnly_firstMost g tl account rankInfo :
  firstMostPlayed (tierOnlyStats g tl account rankInfo).
Proof. exists TOP. repeat split; intros l; destruct l; cbn; lia. Qed.

(** *** Computations that cannot throw *)


Lemma noThrow_ret {C} (c : C) : noThrow (ret c).
Proof. intros w out w' [= <- _]. eauto. Qed.

Lemma noThrow_catch {C} (m : M C) h : noThrow (catch m h).
Proof.
  intros w out w' H. unfold catch in H.
  destruct (m w) as [[[c | e] w1] |]; [| | discriminate];
    injection H as <- _; eauto.
Qed.

Lemma noThrow_bind {C D} (m : M C) (f : C -> M D) :
  noThrow m -> (forall c, noThrow (f c)) -> noThrow (bind m f).
Proof.
  intros Hm Hf w out w' H. unfold bind in H.
  destruct (m w) as [[[c | e] w1] |] eqn:E; [| | discriminate].
  - eapply Hf, H.
  - destruct (Hm _ _ _ E) as [c Hc]. discriminate.
Qed.

Lemma noThrow_mapM {C D} (f : C -> M D) l :
  (forall c, noThrow (f c)) -> noThrow (mapM f l).
Proof.
  intros Hf. induction l as [| c l IH]; simpl.
  - apply noThrow_ret.
  - apply noThrow_bind; [apply Hf |]. intros d.
    apply noThrow_bind; [apply IH |]. intros ds. apply noThrow_ret.
Qed.

(** What [analyzePlayerStats] can return: the placeholder of an
    unresolved identity, or the stats scored from the fetched matches
    (the tier-only stats when there is none). *)
Lemma analyze_shape log10 up retries g tl w out w' :
  analyzePlayerStats log10 up retries g tl w = Some (out, w') ->
  out = Returned (failedStats g tl "unknown")
  \/ exists account rankInfo matches,
       out = Returned (scoreMatches log10 g tl account rankInfo matches).
Proof.
  unfold analyzePlayerStats, bind at 1. intros H.
  destruct (catch (getAccountByRiotId up retries g tl) _ w) as [[[a | e] w1] |] eqn:E1;
    [| | discriminate].
  2:{ apply noThrow_catch in E1 as [c Hc]. discriminate. }
  destruct a as [account |].
  2:{ injection H as <- _. left. reflexivity. }
  right. exists account. unfold bind at 1 in H.
  destruct (catch _ _ w1) as [[[rankInfo | e] w2] |] eqn:E2; [| | discriminate].
  2:{ apply noThrow_catch in E2 as [c Hc]. discriminate. }
  exists rankInfo. unfold bind at 1 in H.
  destruct (catch _ _ w2) as [[[matchIds | e] w3] |] eqn:E3; [| | discriminate].
  2:{ apply noThrow_catch in E3 as [c Hc]. discriminate. }
  destruct matchIds as [| i ids].
  - injection H as <- _. exists []. reflexivity.
  - unfold bind at 1 in H.
    destruct (mapM _ _ w3) as [[[fetched | e] w4] |] eqn:E4; [| | discriminate].
    + injection H as <- _. eauto.
    + apply noThrow_mapM in E4 as [c Hc]; [discriminate |].
      intros c. apply noThrow_catch.
Qed.

End Analysis.

(** ** Scores and unresolved identities *)

Section Scores.

Import RiotApi.

Lemma kdaBonus_clamped kda :
  (-150 <= kdaBonusOf kda <= 150)%Q
  /\ ((-150 <= (kda - 3) * 30 <= 150)%Q -> (kdaBonusOf kda == (kda - 3) * 30)%Q)
  /\ ((150 <= (kda - 3) * 30)%Q -> (kdaBonusOf kda == 150)%Q)
  /\ (((kda - 3) * 30 <= -150)%Q -> (kdaBonusOf kda == -150)%Q).
Proof.
  unfold kdaBonusOf.
  set (raw := ((kda - 3) * 30)%Q).
  destruct (Q.min_spec 150 raw) as [[H1 E1] | [H1 E1]];
    destruct (Q.max_spec (-150) (Qmin 150 raw)) as [[H2 E2] | [H2 E2]];
    rewrite E2; rewrite ?E1 in *; repeat split; intros; lra.
Qed.

Lemma statsBonus_support avgVSPM avgCSPM :
  (statsBonusOf "UTILITY" avgVSPM avgCSPM == (avgVSPM - 2) * 20)%Q.
Proof. reflexivity. Qed.

Lemma statsBonus_other lane avgVSPM avgCSPM :
  lane <> "UTILITY" ->
  (statsBonusOf lane avgVSPM avgCSPM == (avgCSPM - (65 # 10)) * 10)%Q.
Proof.
  intros N. unfold statsBonusOf.
  destruct (String.eqb_spec lane "UTILITY"); [contradiction | reflexivity].
Qed.

Lemma round2_close x : (x - (1 # 200) < Js.round2 x /\ Js.round2 x <= x + (1 # 200))%Q.
Proof.
  unfold Js.round2, Js.round.
  pose proof (Qfloor_le (x * 100 + (1 # 2))) as Hle.
  pose proof (Qlt_floor (x * 100 + (1 # 2))) as Hlt.
  rewrite inject_Z_plus in Hlt.
  change (inject_Z 1) with 1%Q in Hlt.
  set (k := inject_Z (Qfloor (x * 100 + (1 # 2)))) in *.
  change (k / 100)%Q with (k * (1 # 100))%Q. split; lra.
Qed.

Lemma round2_hundredths x : hundredths (Js.round2 x).
Proof. exists (Js.round (x * 100)). reflexivity. Qed.

(** C3: for a player analysed on at least one fetched match, [kdaBonus]
    is [(kda - 3) * 30] clamped to [-150, 150], [winRateBonus] is
    [(winRate - 50) * 5], [roleStatsBonus] is [(avgVSPM - 2) * 20] for
    preferred lane UTILITY and [(avgCSPM - 6.5) * 10] otherwise, and
    [teamContribution] is the sum of the tier score and the four bonuses
    as it is published: a number of two decimals less than 0.01 away
    from the sum.  KDA 3, win rate 50 and 7 CS per minute on a lane other
    than UTILITY give the bonuses 0, 0 and 5. *)
Theorem score_components (log10 : Q -> Q) (g tl : string) (account : RiotAccount)
    (rankInfo : option LeagueEntry) (matches : list MatchDto) :
  matches <> [] ->
  let t := aggregate (acc_puuid account) matches in
  let n := length matches in
  let s := scoreMatches log10 g tl account rankInfo matches in
  let tierScore := inject_Z (calculateTierScore rankInfo) in
  let kdaBonus := kdaBonusOf (kdaOf t n) in
  let winRateBonus := winRateBonusOf (recentWinRateOf t n) in
  let activityBonus := activityBonusOf log10 rankInfo in
  let roleStatsBonus := statsBonusOf (preferredLane s) (avgVSPMOf t n) (avgCSPMOf t n) in
  let finalScore :=
    (tierScore + kdaBonus + winRateBonus + activityBonus + roleStatsBonus)%Q in
  hundredths (teamContribution s)
  /\ (Qabs (teamContribution s - finalScore) < 1 # 100)%Q
  /\ (-150 <= kdaBonus <= 150)%Q
  /\ ((-150 <= (kdaOf t n - 3) * 30 <= 150)%Q -> (kdaBonus == (kdaOf t n - 3) * 30)%Q)
  /\ ((150 <= (kdaOf t n - 3) * 30)%Q -> (kdaBonus == 150)%Q)
  /\ (((kdaOf t n - 3) * 30 <= -150)%Q -> (kdaBonus == -150)%Q)
  /\ (winRateBonus == (recentWinRateOf t n - 50) * 5)%Q
  /\ (preferredLane s = "UTILITY" ->
      (roleStatsBonus == (avgVSPMOf t n - 2) * 20)%Q)
  /\ (preferredLane s <> "UTILITY" ->
      (roleStatsBonus == (avgCSPMOf t n - (65 # 10)) * 10)%Q)
  /\ (kdaBonusOf 3 == 0)%Q /\ (winRateBonusOf 50 == 0)%Q
  /\ (forall lane v, lane <> "UTILITY" -> (statsBonusOf lane v 7 == 5)%Q).
Proof.
  intros Hne t n s tierScore kdaBonus winRateBonus activityBonus roleStatsBonus
         finalScore.
  destruct (scoreMatches_scored log10 g tl account rankInfo matches Hne)
    as (p & _ & Hp & Hc).
  destruct (kdaBonus_clamped (kdaOf t n)) as (K1 & K2 & K3 & K4).
  assert (Hpub : teamContribution s = Js.round2 finalScore).
  { unfold finalScore, roleStatsBonus, s. rewrite Hp. exact Hc. }
  split; [| split; [| split; [| split; [| split; [| split; [| split;
    [| split; [| split; [| split; [| split]]]]]]]]]].
  - rewrite Hpub. apply round2_hundredths.
  - rewrite Hpub. destruct (round2_close finalScore) as [Hlo Hhi].
    apply Qabs_Qlt_condition. split; lra.
  - exact K1.
  - exact K2.
  - exact K3.
  - exact K4.
  - reflexivity.
  - intros E. unfold roleStatsBonus. rewrite E. apply statsBonus_support.
  - intros N. apply statsBonus_other, N.
  - reflexivity.
  - reflexivity.
  - intros lane v N. rewrite statsBonus_other by exact N. reflexivity.
Qed.

(** C5: when the account lookup settles without an account ([null], or
    a throw that the analysis catches), [analyzePlayerStats] does not
    throw and returns the zero-value stats: [puuid] is ['unknown'], the
    averages, [kda], [winRate] and [totalGames] are 0, and
    [teamContribution] is 0. *)
Theorem analyze_unresolved (log10 : Q -> Q) (up : Upstream) (retries : nat)
    (g tl : string) (w w' : World) (out : Outcome (option RiotAccount)) :
  getAccountByRiotId up retries g tl w = Some (out, w') ->
  (forall account, out <> Returned (Some account)) ->
  exists s,
    analyzePlayerStats log10 up retries g tl w = Some (Returned s, w')
    /\ puuid s = "unknown"
    /\ (avgKills s, avgDeaths s, avgAssists s, avgCS s) = (0, 0, 0, 0)%Q
    /\ (kda s, winRate s) = (0, 0)%Q
    /\ totalGames s = 0%Z
    /\ teamContribution s = 0%Q.
Proof.
  intros H N. exists (failedStats g tl "unknown").
  split; [| repeat split].
  unfold analyzePlayerStats, bind, catch. rewrite H.
  destruct out as [[account |] | e]; [| reflexivity | reflexivity].
  exfalso. apply (N account). reflexivity.
Qed.

(** C8: in the stats that [analyzePlayerStats] returns, [preferredLane]
    is a role with the highest count among TOP, JUNGLE, MIDDLE, BOTTOM and
    UTILITY, and every role before it in this order has a strictly lower
    count: on a tie the first role of the enumeration is chosen. *)
Theorem preferredLane_first_max (log10 : Q -> Q) (up : Upstream) (retries : nat)
    (g tl : string) (w w' : World) (s : PlayerStats) :
  analyzePlayerStats log10 up retries g tl w = Some (Returned s, w') ->
  firstMostPlayed s.
Proof.
  intros H. apply analyze_shape in H as [[= ->] | (a & r & ms & [= ->])].
  - apply failedStats_firstMost.
  - apply scoreMatches_firstMost.
Qed.

Lemma getMatchDetails_cached up retries id w out w' :
  getMatchDetails up retries id w = Some (out, w') ->
  matchCache w' !! id = Some out
  /\ getMatchDetails up retries id w' = Some (out, w').
Proof.
  unfold getMatchDetails. intros H.
  destruct (matchCache w !! id) as [cached |] eqn:E.
  - injection H as <- <-. rewrite E. auto.
  - destruct (schedule _ _ w) as [[o w1] |]; [| discriminate].
    injection H as <- <-. simpl. rewrite lookup_insert_eq. auto.
Qed.

End Scores.

(** ** The [/divide-teams] handler *)

Section Handler.

Import RiotApi ApiRoutes.

Context (log10 sqrt : Q -> Q) (up : Upstream) (retries : nat).

Lemma mapM_all {C D} (f : C -> M D) (P : D -> Prop) l :
  (forall c w out w', f c w = Some (out, w') -> exists d, out = Returned d /\ P d) ->
  forall w out w',
    mapM f l w = Some (out, w') ->
    exists ds, out = Returned ds /\ length ds = length l /\ Forall P ds.
Proof.
  intros Hf. induction l as [| c l IH]; intros w out w' H; simpl in H.
  - injection H as <- _. exists []. auto.
  - unfold bind at 1 in H.
    destruct (f c w) as [[o w1] |] eqn:E; [| discriminate].
    destruct (Hf _ _ _ _ E) as (d & -> & Hd).
    unfold bind at 1 in H.
    destruct (mapM f l w1) as [[o w2] |] eqn:E2; [| discriminate].
    destruct (IH _ _ _ E2) as (ds & -> & Hlen & Hall).
    injection H as <- _. exists (d :: ds). simpl. auto.
Qed.

Lemma analyzeOne_some p w out w' :
  analyzeOne log10 up retries p w = Some (out, w') ->
  exists r, out = Returned r /\ is_Some r.
Proof.
  unfold analyzeOne, catch, bind. intros H.
  destruct (analyzePlayerStats _ _ _ _ _ w) as [[o w1] |] eqn:E; [| discriminate].
  assert (Ho : exists s, o = Returned s).
  { apply analyze_shape in E as [-> | (a & r & ms & ->)]; eauto. }
  destruct Ho as [s ->]. injection H as <- _. eauto.
Qed.

(** Every analysis that completes pushes its stats: with each position
    completing once, [playerStats] has one entry per identity. *)
Lemma pushed_length (results : list (option PlayerStats)) completion :
  Forall is_Some results ->
  completion ≡ₚ seq 0 (length results) ->
  length (pushed results completion) = length results.
Proof.
  intros Hall Hperm. unfold pushed.
  assert (Hc : Forall (fun i => i < length results) completion).
  { rewrite Hperm. apply Forall_seq. intros j Hj. lia. }
  assert (HL : length completion = length results).
  { rewrite (Permutation_length Hperm). apply length_seq. }
  rewrite <- HL. clear Hperm HL.
  induction Hc as [| i l Hi _ IH]; [reflexivity |].
  simpl. destruct (lookup_lt_is_Some_2 results i Hi) as [r Hr]. rewrite Hr.
  rewrite Forall_forall in Hall.
  destruct (Hall r (list_elem_of_lookup_2 _ _ _ Hr)) as [s ->].
  simpl. f_equal. exact IH.
Qed.

(** Once the analyses have settled, the handler completes. *)
Lemma divideTeams_after_analysis (players : list Identity) (completion : list nat)
    (w w' : World) (out : Outcome (list (option PlayerStats))) :
  10 <= length players -> length players mod 5 = 0 ->
  completion ≡ₚ seq 0 (length players) ->
  mapM (analyzeOne log10 up retries) players w = Some (out, w') ->
  exists teams balance,
    divideTeams log10 sqrt up retries players completion w
    = Some (Complete teams balance, w')
    /\ length teams = length players / 5.
Proof.
  intros Hn Hm Hperm H. unfold divideTeams.
  destruct (Nat.ltb_spec (length players) 10); [lia |].
  rewrite Hm. cbn [Nat.eqb negb orb]. rewrite H.
  destruct (mapM_all _ is_Some players (analyzeOne_some) _ _ _ H)
    as (results & -> & Hlen & Hall).
  assert (HL : length (pushed results completion) = length players).
  { rewrite <- Hlen. apply pushed_length; [exact Hall |]. rewrite Hlen. exact Hperm. }
  rewrite HL.
  destruct (Nat.ltb_spec (length players) 10); [lia |].
  rewrite divideIntoTeams_ok by (rewrite HL; assumption).
  do 2 eexists. split; [reflexivity |].
  rewrite length_map, length_seq, HL. reflexivity.
Qed.

(** C6 (amended): for a batch of [n >= 10] identities with
    [n mod 5 = 0], the handler never reports too few results, however few
    identities resolve to an account: the stats of an unresolved identity
    are pushed like any other, so the floor of 10 is met, and whenever the
    analyses settle the handler completes with [n / 5] teams. *)
Theorem divideTeams_completes (players : list Identity) (completion : list nat)
    (w : World) :
  10 <= length players -> length players mod 5 = 0 ->
  completion ≡ₚ seq 0 (length players) ->
  (forall resp w',
      divideTeams log10 sqrt up retries players completion w = Some (resp, w') ->
      exists teams balance,
        resp = Complete teams balance /\ length teams = length players / 5)
  /\ (forall out w',
        mapM (analyzeOne log10 up retries) players w = Some (out, w') ->
        exists teams balance,
          divideTeams log10 sqrt up retries players completion w
          = Some (Complete teams balance, w')).
Proof.
  intros Hn Hm Hperm. split.
  - intros resp w' H.
    destruct (mapM (analyzeOne log10 up retries) players w) as [[out w1] |] eqn:E.
    + destruct (divideTeams_after_analysis _ _ _ _ _ Hn Hm Hperm E)
        as (teams & balance & H' & Hlen).
      rewrite H' in H. injection H as <- <-. eauto.
    + unfold divideTeams in H.
      destruct (Nat.ltb_spec (length players) 10); [lia |].
      rewrite Hm in H. cbn [Nat.eqb negb orb] in H. rewrite E in H. discriminate.
  - intros out w' H.
    destruct (divideTeams_after_analysis _ _ _ _ _ Hn Hm Hperm H)
      as (teams & balance & H' & _).
    eauto.
Qed.

End Handler.

(** ** Settling under bounded throttling *)

Section Settling.

Import RiotApi ApiRoutes.

Lemma schedule_settles_at {A B} (api : nat -> Outcome A) req (data : A -> B) fallback j :
  forall n w,
    j <= n ->
    throttledAnswer (api (attempts w req + j)) = false ->
    exists out w', schedule (S n) (guardedGet api req data fallback) w = Some (out, w').
Proof.
  induction j as [| j IH]; intros n w Hj Hlast; rewrite schedule_S, guardedGet_eq.
  - rewrite Nat.add_0_r in Hlast.
    destruct (api _) as [d | e]; [eauto |].
    simpl in Hlast. rewrite Hlast. eauto.
  - destruct (api (attempts w req)) as [d | e] eqn:E; [eauto |].
    destruct (is429 e) eqn:E429; [| eauto].
    unfold onFailed. rewrite E429.
    destruct n as [| n]; [lia |].
    apply IH; [lia |].
    rewrite wait_after. cbn [app]. rewrite attempts_retried.
    replace (attempts w req + 1 + j) with (attempts w req + S j) by lia.
    exact Hlast.
Qed.

Lemma schedule_settles {A B} K (api : nat -> Outcome A) req (data : A -> B) fallback :
  relents K api -> settles (schedule (S K) (guardedGet api req data fallback)).
Proof.
  intros H w. destruct (H (attempts w req)) as (j & Hj & Hlast).
  eapply schedule_settles_at; eassumption.
Qed.

Lemma settles_ret {C} (c : C) : settles (ret c).
Proof. intros w. unfold ret. eauto. Qed.

Lemma settles_bind {C D} (m : M C) (f : C -> M D) :
  settles m -> (forall c, settles (f c)) -> settles (bind m f).
Proof.
  intros Hm Hf w. unfold bind. destruct (Hm w) as ([c | e] & w1 & ->); [apply Hf | eauto].
Qed.

Lemma settles_catch {C} (m : M C) h : settles m -> settles (catch m h).
Proof.
  intros Hm w. unfold catch. destruct (Hm w) as ([c | e] & w1 & ->); eauto.
Qed.

Lemma settles_mapM {C D} (f : C -> M D) l : (forall c, settles (f c)) -> settles (mapM f l).
Proof.
  intros Hf. induction l as [| c l IH]; simpl; [apply settles_ret |].
  apply settles_bind; [apply Hf |]. intros d.
  apply settles_bind; [apply IH |]. intros ds. apply settles_ret.
Qed.

Context (log10 sqrt : Q -> Q) (up : Upstream) (K : nat) (Hup : boundedThrottle K up).

Lemma getMatchDetails_settles matchId : settles (getMatchDetails up (S K) matchId).
Proof.
  intros w. unfold getMatchDetails.
  destruct (matchCache w !! matchId); [eauto |].
  destruct Hup as (_ & _ & _ & Hm).
  destruct (schedule_settles K _ (MatchById matchId) Some None (Hm matchId) w)
    as (out & w' & ->).
  eauto.
Qed.

(** With one run more than the upstream's longest throttling streak,
    every analysis settles. *)
Lemma analyze_settles g tl : settles (analyzePlayerStats log10 up (S K) g tl).
Proof.
  destruct Hup as (Ha & Hl & Hi & Hm). unfold analyzePlayerStats.
  apply settles_bind.
  { apply settles_catch, schedule_settles, Ha. }
  intros [account |]; [| apply settles_ret].
  apply settles_bind.
  { apply settles_catch, settles_bind; [apply schedule_settles, Hl |].
    intros leagues. apply settles_ret. }
  intros rankInfo. apply settles_bind.
  { apply settles_catch, schedule_settles, Hi. }
  intros [| i ids]; [apply settles_ret |].
  apply settles_bind.
  { apply settles_mapM. intros m. apply settles_catch, getMatchDetails_settles. }
  intros fetched. apply settles_ret.
Qed.

(** The whole batch then completes, whatever the identities resolve to. *)
Lemma divideTeams_settles (players : list Identity) (completion : list nat) (w : World) :
  10 <= length players -> length players mod 5 = 0 ->
  completion ≡ₚ seq 0 (length players) ->
  exists teams balance w',
    divideTeams log10 sqrt up (S K) players completion w
    = Some (Complete teams balance, w')
    /\ length teams = length players / 5.
Proof.
  intros Hn Hm Hperm.
  assert (Hs : settles (mapM (analyzeOne log10 up (S K)) players)).
  { apply settles_mapM. intros p. apply settles_catch, settles_bind.
    - apply analyze_settles.
    - intros s. apply settles_ret. }
  destruct (Hs w) as (out & w' & E).
  destruct (divideTeams_after_analysis log10 sqrt up (S K) players completion
              _ _ _ Hn Hm Hperm E) as (teams & balance & H & Hlen).
  eauto 6.
Qed.

End Settling.

(** ** [parseInt] on decimal numerals *)

Section ParseInt.

Import RiotApi.









End ParseInt.

(** ** Retry, cache and worked examples *)

Section Examples.

Import RiotApi TeamMaker ApiRoutes Sample.





(** Each service method is a guarded upstream call behind the limiter. *)
Lemma methods_are_guarded (up : Upstream) (retries : nat) :
  (forall g t, getAccountByRiotId up retries g t
               = schedule retries (guardedGet (accountApi up g t)
                                     (AccountByRiotId g t) Some None))
  /\ (forall p, getLeagueEntriesByPuuid up retries p
                = schedule retries (guardedGet (leagueApi up p)
                                      (LeagueEntriesByPuuid p) id []))
  /\ (forall p c, getMatchHistory up retries p c
                  = schedule retries (guardedGet (matchIdsApi up p c)
                                        (MatchIdsByPuuid p c) id []))
  /\ (forall m w, matchCache w !! m = None ->
        fst <$> getMatchDetails up retries m w
        = fst <$> schedule retries (guardedGet (matchApi up m) (MatchById m) Some None) w).
Proof.
  repeat split; intros. unfold getMatchDetails. rewrite H.
  destruct (schedule _ _ w) as [[o w'] |]; reflexivity.
Qed.



(** C7 (the code departs from the claim): when the detail fetch of a
    match fails with a server error, [getMatchDetails] resolves to [null]
    and leaves the entry in [matchCache]; a second call for the same
    identifier returns the cached [null] and issues no upstream request,
    although the upstream would now deliver the match. *)
Theorem getMatchDetails_failure_stays_cached :
  let w1 := {| trace := [Called (MatchById "KR_9")];
               matchCache := {[ "KR_9" := Returned None ]} |} in
  getMatchDetails upstream2 1 "KR_9" emptyWorld = Some (Returned None, w1)
  /\ matchCache w1 !! "KR_9" = Some (Returned None)
  /\ getMatchDetails upstream2 1 "KR_9" w1 = Some (Returned None, w1)
  /\ matchApi upstream2 "KR_9" 1 = Returned game9.
Proof. vm_compute. repeat split; reflexivity. Qed.

Lemma score_components_witness :
  games <> []
  /\ teamContribution (scoreMatches noLog "Hide on bush" "KR1" account1 None games)
     = 111667 # 100
  /\ hundredths (teamContribution
                   (scoreMatches noLog "Hide on bush" "KR1" account1 None games)).
Proof.
  split; [discriminate |]. split; [vm_compute; reflexivity |].
  destruct (score_components noLog "Hide on bush" "KR1" account1 None games) as [H _].
  - discriminate.
  - exact H.
Defined.

(** C6, counterexample: of ten identities a single one resolves to an
    account, and the handler still completes with two teams. *)
Lemma insufficient_not_raised :
  length tenIdentities = 10
  /\ length (filter (fun p => resolves upstream1 p = true) tenIdentities) = 1
  /\ exists teams balance w,
       divideTeams noLog sqrtQ upstream1 1 tenIdentities (seq 0 10) emptyWorld
       = Some (Complete teams balance, w)
       /\ length teams = 2.
Proof.
  split; [reflexivity |]. split; [vm_compute; reflexivity |].
  do 3 eexists. split; vm_compute; reflexivity.
Qed.

Lemma divideIntoTeams_raises_iff_witness :
  (exists teams, divideIntoTeams tenPlayers = Ok teams)
  /\ divideIntoTeams (firstn 7 tenPlayers) = Raise InvalidInput.
Proof.
  split.
  - apply (divideIntoTeams_raises_iff tenPlayers). simpl. lia.
  - apply (divideIntoTeams_raises_iff (firstn 7 tenPlayers)). simpl. lia.
Defined.

Lemma divideIntoTeams_snake_witness :
  10 <= length tenPlayers /\ length tenPlayers mod 5 = 0
  /\ exists teams,
       divideIntoTeams tenPlayers = Ok teams
       /\ length teams = 2
       /\ concat (map players teams) ≡ₚ tenPlayers.
Proof.
  split; [simpl; lia |]. split; [reflexivity |].
  destruct (divideIntoTeams_snake tenPlayers) as (teams & H1 & H2 & _ & H4 & _).
  - simpl. lia.
  - reflexivity.
  - exists teams. auto.
Defined.

Lemma lanes_all_filled_witness :
  divideIntoTeams tenPlayers = Ok tenTeams
  /\ forall team, team ∈ tenTeams ->
       exists q1 q2 q3 q4 q5,
         teamLanes team
         = {| aTOP := Some q1; aJUNGLE := Some q2; aMIDDLE := Some q3;
              aBOTTOM := Some q4; aUTILITY := Some q5 |}
         /\ [q1; q2; q3; q4; q5] ≡ₚ players team.
Proof.
  assert (H : divideIntoTeams tenPlayers = Ok tenTeams) by (vm_compute; reflexivity).
  split; [exact H |].
  intros team Hin. apply (lanes_all_filled tenPlayers tenTeams team H Hin).
Defined.

Lemma analyze_unresolved_witness :
  getAccountByRiotId upstream1 1 "nobody" "KR1" emptyWorld
  = Some (Returned None,
          {| trace := [Called (AccountByRiotId "nobody" "KR1")]; matchCache := ∅ |})
  /\ exists s,
       analyzePlayerStats noLog upstream1 1 "nobody" "KR1" emptyWorld
       = Some (Returned s,
               {| trace := [Called (AccountByRiotId "nobody" "KR1")]; matchCache := ∅ |})
       /\ puuid s = "unknown"
       /\ teamContribution s = 0%Q.
Proof.
  assert (H : getAccountByRiotId upstream1 1 "nobody" "KR1" emptyWorld
              = Some (Returned None,
                      {| trace := [Called (AccountByRiotId "nobody" "KR1")];
                         matchCache := ∅ |})) by (vm_compute; reflexivity).
  split; [exact H |].
  destruct (analyze_unresolved noLog upstream1 1 "nobody" "KR1" _ _ _ H)
    as (s & Hs & Hp & _ & _ & _ & Hc).
  - intros account. discriminate.
  - exists s. auto.
Defined.

Lemma preferredLane_first_max_witness :
  exists s w,
    analyzePlayerStats noLog upstream1 1 "Hide on bush" "KR1" emptyWorld
    = Some (Returned s, w)
    /\ laneDistribution s
       = {| cTOP := 1; cJUNGLE := 0; cMIDDLE := 2; cBOTTOM := 0; cUTILITY := 0 |}
    /\ firstMostPlayed s.
Proof.
  eexists. eexists. split; [vm_compute; reflexivity |].
  split; [reflexivity |].
  eapply (preferredLane_first_max noLog upstream1 1 "Hide on bush" "KR1" emptyWorld).
  vm_compute. reflexivity.
Defined.

Lemma divideTeams_completes_witness :
  10 <= length tenIdentities /\ length tenIdentities mod 5 = 0
  /\ exists teams balance w,
       divideTeams noLog sqrtQ upstream1 1 tenIdentities (seq 0 10) emptyWorld
       = Some (Complete teams balance, w).
Proof.
  split; [simpl; lia |]. split; [reflexivity |].
  destruct (divideTeams_completes noLog sqrtQ upstream1 1 tenIdentities (seq 0 10)
              emptyWorld) as [_ H].
  - simpl. lia.
  - reflexivity.
  - reflexivity.
  - destruct (mapM (analyzeOne noLog upstream1 1) tenIdentities emptyWorld)
      as [[out w] |] eqn:E.
    + destruct (H out w eq_refl) as (teams & balance & H'). eauto.
    + vm_compute in E. discriminate.
Defined.

End Examples.

(** * Further properties *)

(** ** More on sorting and lane assignment *)

Section MoreTeamMaker.

Import TeamMaker Sample.

Lemma insertSorted_class c x l :
  List.filter (sameScore c) (insertSorted byContribution x l)
  = List.filter (sameScore c) (x :: l).
Proof.
  induction l as [| y l IH]; [reflexivity |].
  cbn [insertSorted].
  destruct (RiotApi.Qgtb (byContribution x y) 0) eqn:E; [| reflexivity].
  apply Qgtb_true in E. unfold byContribution in E.
  cbn [List.filter] in *. rewrite IH.
  unfold sameScore.
  destruct (Qeq_bool (teamContribution x) c) eqn:Ex;
    destruct (Qeq_bool (teamContribution y) c) eqn:Ey; try reflexivity.
  apply Qeq_bool_iff in Ex. apply Qeq_bool_iff in Ey. lra.
Qed.

(** X1: [sort] with the comparator of [divideIntoTeams] rearranges the
    players in descending order of contribution and is stable: the
    players of one and the same contribution keep their input order. *)
Theorem sort_stable_descending (l : list PlayerStats) :
  sort byContribution l ≡ₚ l
  /\ descending (sort byContribution l)
  /\ forall c, List.filter (sameScore c) (sort byContribution l)
               = List.filter (sameScore c) l.
Proof.
  split; [apply sort_perm |]. split; [apply sort_descending |].
  intros c. induction l as [| x l IH]; [reflexivity |].
  cbn [sort foldr]. fold (sort byContribution l).
  rewrite insertSorted_class. cbn [List.filter]. rewrite IH. reflexivity.
Qed.

Lemma keepBest_fold lane (l : list PlayerStats) :
  forall b0 m0 b m,
    m0 = gamesIn lane b0 ->
    fold_left (keepBest lane) l (b0, m0) = (b, m) ->
    m = gamesIn lane b
    /\ (m0 <= m)%Z
    /\ (forall p, p ∈ l -> (gamesIn lane p <= m)%Z)
    /\ ((b = b0 /\ m = m0)
        \/ exists i, l !! i = Some b /\ (m0 < m)%Z
                     /\ forall j p, j < i -> l !! j = Some p -> (gamesIn lane p < m)%Z).
Proof.
  induction l as [| p l IH]; intros b0 m0 b m Hm0 H.
  - injection H as <- <-. repeat split; [exact Hm0 | lia | | left; auto].
    intros p Hp. apply elem_of_nil in Hp. contradiction.
  - cbn [fold_left keepBest] in H. fold (gamesIn lane p) in H.
    destruct (Z.ltb_spec m0 (gamesIn lane p)) as [Hlt | Hge].
    + destruct (IH _ _ _ _ eq_refl H) as (Hm & Hle & Hall & Hwho).
      split; [exact Hm |]. split; [lia |]. split.
      * intros q Hq. apply elem_of_cons in Hq as [-> | Hq]; [lia | apply Hall, Hq].
      * right. destruct Hwho as [[-> ->] | (i & Hi & Hlt' & Hbefore)].
        -- exists 0. split; [reflexivity |]. split; [lia |]. intros j q Hj. lia.
        -- exists (S i). split; [exact Hi |]. split; [lia |].
           intros [| j] q Hj Hq; simpl in Hq.
           ++ injection Hq as <-. lia.
           ++ apply (Hbefore j q); [lia | exact Hq].
    + destruct (IH _ _ _ _ Hm0 H) as (Hm & Hle & Hall & Hwho).
      split; [exact Hm |]. split; [lia |]. split.
      * intros q Hq. apply elem_of_cons in Hq as [-> | Hq]; [lia | apply Hall, Hq].
      * destruct Hwho as [[-> ->] | (i & Hi & Hlt' & Hbefore)]; [left; auto |].
        right. exists (S i). split; [exact Hi |]. split; [lia |].
        intros [| j] q Hj Hq; simpl in Hq.
        -- injection Hq as <-. lia.
        -- apply (Hbefore j q); [lia | exact Hq].
Qed.

(** X2: [findBestPlayerForLane] returns [null] exactly when no player has
    a game in the role (an empty list included); otherwise it returns
    the first player, in list order, among those with the most games in
    the role, and that number is positive. *)
Theorem findBestPlayerForLane_spec (players : list PlayerStats) (lane : Lane) :
  match findBestPlayerForLane players lane with
  | None => forall p, p ∈ players -> (gamesIn lane p <= 0)%Z
  | Some best =>
      exists i,
        players !! i = Some best
        /\ (0 < gamesIn lane best)%Z
        /\ (forall p, p ∈ players -> (gamesIn lane p <= gamesIn lane best)%Z)
        /\ (forall j p, j < i -> players !! j = Some p ->
                        (gamesIn lane p < gamesIn lane best)%Z)
  end.
Proof.
  unfold findBestPlayerForLane. destruct players as [| first rest].
  { intros p Hp. apply elem_of_nil in Hp. contradiction. }
  destruct (fold_left (keepBest lane) (first :: rest)
              (first, laneGames (laneDistribution first) lane)) as [b m] eqn:E.
  destruct (keepBest_fold lane _ _ _ _ _ eq_refl E) as (Hm & Hle & Hall & Hwho).
  destruct (Z.ltb_spec 0 m) as [Hpos | Hnon].
  - destruct Hwho as [[-> _] | (i & Hi & Hlt & Hbefore)].
    + exists 0. split; [reflexivity |]. split; [lia |]. split.
      * intros p Hp. specialize (Hall p Hp). lia.
      * intros j p Hj. lia.
    + exists i. split; [exact Hi |]. split; [lia |]. split.
      * intros p Hp. specialize (Hall p Hp). lia.
      * intros j p Hj Hp. specialize (Hbefore j p Hj Hp). lia.
  - intros p Hp. specialize (Hall p Hp). lia.
Qed.

End MoreTeamMaker.

(** ** Lane assignment for teams of any size *)

Section MoreLanes.

Import TeamMaker Sample.

Lemma placed_at_most_five a : length (placed a) <= 5.
Proof.
  destruct a as [a1 a2 a3 a4 a5]. unfold placed, occupants. simpl.
  destruct a1, a2, a3, a4, a5; simpl; lia.
Qed.

Lemma all_settled a u :
  (forall l, settled (a, u) l) -> length (placed a) = 5 \/ u = [].
Proof.
  intros Hs. destruct u as [| x u]; [right; reflexivity |]. left.
  destruct (Hs TOP) as [[q1 H1] | ?]; [| discriminate].
  destruct (Hs JUNGLE) as [[q2 H2] | ?]; [| discriminate].
  destruct (Hs MIDDLE) as [[q3 H3] | ?]; [| discriminate].
  destruct (Hs BOTTOM) as [[q4 H4] | ?]; [| discriminate].
  destruct (Hs UTILITY) as [[q5 H5] | ?]; [| discriminate].
  destruct a as [a1 a2 a3 a4 a5]. simpl in *. subst. reflexivity.
Qed.

(** X3: whatever the size of the team, [optimizeLaneDistribution] leaves
    the members as they are and gives roles to members only, no member
    twice: the occupants together with some rest are the members.  The
    number of occupied roles is the smaller of 5 and the team size, so a
    team of fewer than five leaves roles empty and a larger team leaves
    members without a role. *)
Theorem optimizeLaneDistribution_any_size (team : Team) :
  players (optimizeLaneDistribution team) = players team
  /\ (exists rest,
        placed (teamLanes (optimizeLaneDistribution team)) ++ rest ≡ₚ players team)
  /\ length (placed (teamLanes (optimizeLaneDistribution team)))
     = Nat.min 5 (length (players team)).
Proof.
  split; [reflexivity |].
  unfold optimizeLaneDistribution. cbn [teamLanes].
  remember (fold_left fillEmpty lanes
              (fold_left assignBest lanes (noLanes, players team))) as st eqn:E.
  assert (Hc : covers (players team) st).
  { subst st. apply pass2_covers, pass1_covers.
    - apply lanes_NoDup.
    - intros l _. destruct l; reflexivity.
    - unfold covers. reflexivity. }
  assert (Hs : forall l, settled st l).
  { intros l. subst st. apply pass2_settles, lane_in_lanes. }
  clear E. destruct st as [a u]. unfold covers in Hc. cbn [fst snd] in *.
  split; [exists u; exact Hc |].
  pose proof (Permutation_length Hc) as HL. rewrite length_app in HL.
  pose proof (placed_at_most_five a) as H5.
  destruct (all_settled a u Hs) as [Hfull | ->]; cbn [length] in HL; lia.
Qed.

Lemma fillEmpty_keeps_occupant a u lane lane' q :
  getLane a lane' = Some q -> getLane (fst (fillEmpty (a, u) lane)) lane' = Some q.
Proof.
  intros H. unfold fillEmpty.
  destruct (getLane a lane) eqn:E; [exact H |].
  destruct u as [| next rest]; [exact H |]. simpl.
  destruct (decide (lane = lane')) as [-> | N]; [congruence |].
  rewrite getLane_setLane_ne by exact N. exact H.
Qed.

Lemma pass2_keeps_occupant ls st lane q :
  getLane (fst st) lane = Some q ->
  getLane (fst (fold_left fillEmpty ls st)) lane = Some q.
Proof.
  revert st. induction ls as [| l ls IH]; intros [a u] H; [exact H |].
  cbn [fold_left]. apply IH.
  destruct (fillEmpty (a, u) l) as [a' u'] eqn:E.
  change a' with (fst (a', u')). rewrite <- E.
  apply fillEmpty_keeps_occupant, H.
Qed.

Lemma pass1_keeps_lane ls st lane :
  lane ∉ ls ->
  getLane (fst (fold_left assignBest ls st)) lane = getLane (fst st) lane.
Proof.
  revert st. induction ls as [| l ls IH]; intros [a u] H; [reflexivity |].
  cbn [fold_left]. rewrite IH by (intros Hin; apply H, list_elem_of_further, Hin).
  apply assignBest_other. intros ->. apply H, list_elem_of_here.
Qed.

(** X4: TOP is the first role to be assigned: when some member has a
    game in TOP, the TOP role goes to the first member with the most TOP
    games, whatever the other roles do. *)
Theorem top_goes_to_most_played (team : Team) (best : PlayerStats) :
  findBestPlayerForLane (players team) TOP = Some best ->
  aTOP (teamLanes (optimizeLaneDistribution team)) = Some best.
Proof.
  intros H. unfold optimizeLaneDistribution. cbn [teamLanes].
  change (aTOP ?a) with (getLane a TOP).
  apply pass2_keeps_occupant.
  change (fold_left assignBest lanes (noLanes, players team))
    with (fold_left assignBest [JUNGLE; MIDDLE; BOTTOM; UTILITY]
            (assignBest (noLanes, players team) TOP)).
  rewrite pass1_keeps_lane by compute_done.
  unfold assignBest. rewrite H. reflexivity.
Qed.

Lemma top_goes_to_most_played_witness :
  findBestPlayerForLane tenPlayers TOP = Some (player "p0" 1500 9 0 3 0 0)
  /\ aTOP (teamLanes (optimizeLaneDistribution
                        {| teamNumber := 1; players := tenPlayers;
                           avgTeamScore := 0; teamLanes := noLanes |}))
     = Some (player "p0" 1500 9 0 3 0 0).
Proof.
  split; [vm_compute; reflexivity |].
  apply (top_goes_to_most_played
           {| teamNumber := 1; players := tenPlayers;
              avgTeamScore := 0; teamLanes := noLanes |}).
  vm_compute. reflexivity.
Defined.

End MoreLanes.

(** ** Balance of the drafted teams *)

Section MoreBalance.

Import TeamMaker Sample.

Lemma descending_lookup (l : list PlayerStats) :
  descending l ->
  forall i j x y, i <= j -> l !! i = Some x -> l !! j = Some y ->
                  (teamContribution y <= teamContribution x)%Q.
Proof.
  unfold descending. induction 1 as [| a l Hs IH Ha]; intros i j x y Hij Hi Hj.
  - discriminate.
  - destruct i as [| i], j as [| j]; simpl in *.
    + injection Hi as <-. injection Hj as <-. lra.
    + injection Hi as <-. rewrite Forall_forall in Ha.
      apply Ha. apply list_elem_of_lookup_2 in Hj. exact Hj.
    + lia.
    + apply (IH i j); [lia | assumption | assumption].
Qed.

(** The five picks of team [k], by name. *)
Lemma team_picks t k (l : list PlayerStats) :
  k < t -> length l = 5 * t ->
  exists p0 p1 p2 p3 p4,
    l !! k = Some p0 /\ l !! (2 * t - 1 - k) = Some p1 /\ l !! (2 * t + k) = Some p2
    /\ l !! (4 * t - 1 - k) = Some p3 /\ l !! (4 * t + k) = Some p4
    /\ pick t k 0 l = [p0; p1; p2; p3; p4].
Proof.
  intros Hk Hl. pose proof (pick_five t k l Hk Hl) as H.
  unfold picksOf in H. cbn [fmap list_fmap] in H.
  destruct (lookup_lt_is_Some_2 l k) as [p0 H0]; [lia |].
  destruct (lookup_lt_is_Some_2 l (2 * t - 1 - k)) as [p1 H1]; [lia |].
  destruct (lookup_lt_is_Some_2 l (2 * t + k)) as [p2 H2]; [lia |].
  destruct (lookup_lt_is_Some_2 l (4 * t - 1 - k)) as [p3 H3]; [lia |].
  destruct (lookup_lt_is_Some_2 l (4 * t + k)) as [p4 H4]; [lia |].
  rewrite H0, H1, H2, H3, H4 in H.
  exists p0, p1, p2, p3, p4. repeat split; try assumption.
  destruct (pick t k 0 l) as [| q0 [| q1 [| q2 [| q3 [| q4 [| ? ?]]]]]];
    try discriminate.
  cbn in H. congruence.
Qed.

(** What [divideIntoTeams] returns, team by team. *)
Lemma divided_team ps teams team :
  divideIntoTeams ps = Ok teams -> team ∈ teams ->
  10 <= length ps /\ length ps mod 5 = 0
  /\ exists k, k < length ps / 5
     /\ team = withAverage (optimizeLaneDistribution
                              (drafted (length ps / 5) (sort byContribution ps) k)).
Proof.
  intros Hdiv Hin.
  destruct (valid_or_not (length ps)) as [[Hn Hm] | Hbad].
  2:{ rewrite divideIntoTeams_invalid in Hdiv by exact Hbad. discriminate. }
  rewrite divideIntoTeams_ok in Hdiv by assumption. injection Hdiv as <-.
  apply list_elem_of_fmap in Hin as (k & -> & Hk). apply elem_of_seq in Hk.
  split; [exact Hn |]. split; [exact Hm |]. exists k.
  split; [exact (proj2 Hk) | reflexivity].
Qed.

(** X5: the snake draft keeps the teams close: the total contributions
    of any two teams that [divideIntoTeams] returns differ by no more
    than the gap between the highest and the lowest contribution in the
    input. *)
Theorem snake_draft_gap (ps : list PlayerStats) (teams : list Team)
    (a b : Team) (lo hi : Q) :
  divideIntoTeams ps = Ok teams -> a ∈ teams -> b ∈ teams ->
  (forall p, p ∈ ps -> (lo <= teamContribution p <= hi)%Q) ->
  (totalScoreOf a - totalScoreOf b <= hi - lo)%Q.
Proof.
  intros Hdiv Ha Hb Hrange.
  destruct (divided_team ps teams a Hdiv Ha) as (Hn & Hm & j & Hj & ->).
  destruct (divided_team ps teams b Hdiv Hb) as (_ & _ & k & Hk & ->).
  set (t := length ps / 5) in *. set (sorted := sort byContribution ps) in *.
  assert (Hlen : length sorted = 5 * t).
  { unfold sorted, t. rewrite sort_length. apply length_div5, Hm. }
  assert (Hdesc : descending sorted) by apply sort_descending.
  assert (Hin : forall i p, sorted !! i = Some p ->
                            (lo <= teamContribution p <= hi)%Q).
  { intros i p Hp. apply Hrange. apply list_elem_of_lookup_2 in Hp.
    unfold sorted in Hp. rewrite sort_perm in Hp. exact Hp. }
  destruct (team_picks t j sorted Hj Hlen)
    as (a0 & a1 & a2 & a3 & a4 & A0 & A1 & A2 & A3 & A4 & EA).
  destruct (team_picks t k sorted Hk Hlen)
    as (b0 & b1 & b2 & b3 & b4 & B0 & B1 & B2 & B3 & B4 & EB).
  unfold totalScoreOf, withAverage, optimizeLaneDistribution, drafted.
  cbn [players]. rewrite EA, EB. cbn [fold_left].
  pose proof (Hin _ _ A0). pose proof (Hin _ _ A1). pose proof (Hin _ _ A2).
  pose proof (Hin _ _ A3). pose proof (Hin _ _ A4).
  pose proof (Hin _ _ B0). pose proof (Hin _ _ B1). pose proof (Hin _ _ B2).
  pose proof (Hin _ _ B3). pose proof (Hin _ _ B4).
  destruct (Nat.lt_total j k) as [Hlt | [-> | Hgt]].
  - assert (B1_A1 := descending_lookup _ Hdesc (2 * t - 1 - k) (2 * t - 1 - j) _ _ ltac:(lia) B1 A1).
    assert (B3_A3 := descending_lookup _ Hdesc (4 * t - 1 - k) (4 * t - 1 - j) _ _ ltac:(lia) B3 A3).
    assert (B0_A2 := descending_lookup _ Hdesc k (2 * t + j) _ _ ltac:(lia) B0 A2).
    assert (B2_A4 := descending_lookup _ Hdesc (2 * t + k) (4 * t + j) _ _ ltac:(lia) B2 A4).
    lra.
  - rewrite A0 in B0. rewrite A1 in B1. rewrite A2 in B2. rewrite A3 in B3.
    rewrite A4 in B4.
    injection B0 as <-. injection B1 as <-. injection B2 as <-.
    injection B3 as <-. injection B4 as <-. lra.
  - assert (B0_A0 := descending_lookup _ Hdesc k j _ _ ltac:(lia) B0 A0).
    assert (B2_A2 := descending_lookup _ Hdesc (2 * t + k) (2 * t + j) _ _ ltac:(lia) B2 A2).
    assert (B4_A4 := descending_lookup _ Hdesc (4 * t + k) (4 * t + j) _ _ ltac:(lia) B4 A4).
    assert (B1_A3 := descending_lookup _ Hdesc (2 * t - 1 - k) (4 * t - 1 - j) _ _ ltac:(lia) B1 A3).
    lra.
Qed.

End MoreBalance.

(** ** Rounding, averages and the balance metric *)

Section MoreRounding.

Import TeamMaker Sample.

Lemma sum_hundredths (l : list PlayerStats) :
  Forall (fun p => hundredths (teamContribution p)) l ->
  forall acc, hundredths acc ->
    hundredths (fold_left (fun sum p => (sum + teamContribution p)%Q) l acc).
Proof.
  induction 1 as [| p l [k Hk] _ IH]; intros acc [j Hj]; cbn [fold_left]; [exists j; exact Hj |].
  apply IH. exists (j + k)%Z. rewrite Hj, Hk, inject_Z_plus. field.
Qed.

Lemma round2_of_hundredths (x : Q) (K : Z) :
  (x == inject_Z K / 100)%Q ->
  (Js.round2 (x / 5) == inject_Z ((K + 2) / 5) / 100)%Q.
Proof.
  intros H. unfold Js.round2, Js.round.
  assert (E : (x / 5 * 100 + (1 # 2) == (2 * K + 5) # 10)%Q).
  { rewrite H, (Qmake_Qdiv (2 * K + 5) 10), inject_Z_plus, inject_Z_mult.
    change (inject_Z 2) with 2%Q. change (inject_Z 5) with 5%Q.
    change (inject_Z (Z.pos 10)) with 10%Q. field. }
  rewrite (Qfloor_comp _ _ E).
  replace (Qfloor ((2 * K + 5) # 10)) with ((K + 2) / 5)%Z; [reflexivity |].
  unfold Qfloor. Z.div_mod_to_equations. lia.
Qed.

(** X6: when the contributions are numbers of two decimals below 10^9
    in absolute value, as the analysis publishes them, the average that
    [divideIntoTeams] stores in a team is the mean of its five members'
    contributions rounded to the nearest hundredth: with the members'
    total at [K] hundredths the average is the integer nearest to [K / 5]
    hundredths, which is never half-way between two, and it is within
    0.004 of the exact mean. *)
Theorem team_average_is_rounded_mean (ps : list PlayerStats) (teams : list Team)
    (team : Team) :
  divideIntoTeams ps = Ok teams -> team ∈ teams ->
  (forall p, p ∈ ps ->
     hundredths (teamContribution p) /\ (Qabs (teamContribution p) <= 1000000000)%Q) ->
  exists K : Z,
    (totalScoreOf team == inject_Z K / 100)%Q
    /\ (avgTeamScore team == inject_Z ((K + 2) / 5) / 100)%Q
    /\ (Qabs (avgTeamScore team - totalScoreOf team / 5) <= 1 # 250)%Q.
Proof.
  intros Hdiv Hin Hps.
  destruct (divided_team ps teams team Hdiv Hin) as (Hn & Hm & k & Hk & ->).
  set (t := length ps / 5) in *. set (sorted := sort byContribution ps) in *.
  assert (Hlen : length sorted = 5 * t).
  { unfold sorted. rewrite sort_length. apply length_div5, Hm. }
  destruct (team_picks t k sorted Hk Hlen)
    as (p0 & p1 & p2 & p3 & p4 & H0 & H1 & H2 & H3 & H4 & Hpick).
  assert (Hmem : forall i p, sorted !! i = Some p -> hundredths (teamContribution p)).
  { intros i p Hi. apply Hps. rewrite <- (sort_perm byContribution ps).
    apply (list_elem_of_lookup_2 _ i), Hi. }
  assert (Hplayers : players (withAverage (optimizeLaneDistribution (drafted t sorted k)))
                     = [p0; p1; p2; p3; p4]).
  { cbn [players withAverage optimizeLaneDistribution drafted]. exact Hpick. }
  assert (Htotal : hundredths (totalScoreOf
                     (withAverage (optimizeLaneDistribution (drafted t sorted k))))).
  { unfold totalScoreOf. rewrite Hplayers. apply sum_hundredths.
    - repeat constructor; eapply Hmem; eassumption.
    - exists 0%Z. reflexivity. }
  destruct Htotal as [K HK]. exists K. split; [exact HK |].
  assert (Havg : avgTeamScore (withAverage (optimizeLaneDistribution (drafted t sorted k)))
                 = Js.round2 (totalScoreOf
                     (withAverage (optimizeLaneDistribution (drafted t sorted k))) / 5)).
  { unfold withAverage at 1. cbn [avgTeamScore].
    change (players (optimizeLaneDistribution (drafted t sorted k)))
      with (pick t k 0 sorted).
    rewrite Hpick. reflexivity. }
  pose proof (round2_of_hundredths _ K HK) as Hr.
  rewrite Havg. split; [exact Hr |].
  rewrite Hr, HK.
  assert (Hq : (-2 <= 5 * ((K + 2) / 5) - K <= 2)%Z)
    by (Z.div_mod_to_equations; lia).
  set (q := ((K + 2) / 5)%Z) in *.
  apply Qabs_Qle_condition.
  assert (E : (inject_Z q / 100 - inject_Z K / 100 / 5
               == inject_Z (5 * q - K) / 500)%Q).
  { unfold Z.sub. rewrite inject_Z_plus, inject_Z_mult, inject_Z_opp. field. }
  rewrite E.
  assert (Hlo : (inject_Z (-2) <= inject_Z (5 * q - K))%Q) by (rewrite <- Zle_Qle; lia).
  assert (Hhi : (inject_Z (5 * q - K) <= inject_Z 2)%Q) by (rewrite <- Zle_Qle; lia).
  change (inject_Z (-2)) with (-2)%Q in Hlo. change (inject_Z 2) with 2%Q in Hhi.
  set (z := inject_Z (5 * q - K)) in *.
  change (z / 500)%Q with (z * (1 # 500))%Q. split; lra.
Qed.

Lemma team_average_is_rounded_mean_witness :
  divideIntoTeams tenPlayers = Ok tenTeams
  /\ forall team, team ∈ tenTeams ->
       exists K : Z,
         (totalScoreOf team == inject_Z K / 100)%Q
         /\ (avgTeamScore team == inject_Z ((K + 2) / 5) / 100)%Q.
Proof.
  assert (H : divideIntoTeams tenPlayers = Ok tenTeams) by (vm_compute; reflexivity).
  split; [exact H |]. intros team Hin.
  destruct (team_average_is_rounded_mean tenPlayers tenTeams team H Hin)
    as (K & H1 & H2 & _).
  - intros p Hp. unfold tenPlayers in Hp.
    repeat (apply elem_of_cons in Hp as [-> | Hp];
            [split; [match goal with
                     | |- hundredths ?x => exists (Qnum x * 100)%Z
                     end; vm_compute; reflexivity
                    | vm_compute; discriminate] |]).
    apply elem_of_nil in Hp. contradiction.
  - exists K. split; assumption.
Defined.

Lemma snake_draft_gap_witness :
  divideIntoTeams tenPlayers = Ok tenTeams
  /\ forall a b, a ∈ tenTeams -> b ∈ tenTeams ->
       (totalScoreOf a - totalScoreOf b <= 2100 - 0)%Q.
Proof.
  assert (H : divideIntoTeams tenPlayers = Ok tenTeams) by (vm_compute; reflexivity).
  split; [exact H |]. intros a b Ha Hb.
  apply (snake_draft_gap tenPlayers tenTeams a b 0 2100 H Ha Hb).
  intros p Hp. unfold tenPlayers in Hp.
  repeat (apply elem_of_cons in Hp as [-> | Hp];
          [unfold Qle; simpl; lia |]).
  apply elem_of_nil in Hp. contradiction.
Defined.

End MoreRounding.

(** ** The balance metric *)

Section MoreVariance.

Import TeamMaker Sample.

(** An integer whose product with a square is a square has an integer
    root. *)
Lemma sqrt_of_scaled_square (a q m : Z) :
  (0 <= a)%Z -> (0 < q)%Z -> (0 <= m)%Z -> (a * (q * q) = m * m)%Z ->
  (Z.sqrt a * q = m)%Z.
Proof.
  intros Ha Hq Hm H.
  set (g := Z.gcd m q).
  assert (Hg : (0 < g)%Z).
  { pose proof (Z.gcd_nonneg m q) as H0.
    destruct (Z.eq_dec g 0%Z) as [E | N]; [| unfold g in *; lia].
    apply Z.gcd_eq_0_r in E. lia. }
  assert (Hm' : (m = g * (m / g))%Z).
  { apply Zdivide_Zdiv_eq; [exact Hg | apply Z.gcd_divide_l]. }
  assert (Hq' : (q = g * (q / g))%Z).
  { apply Zdivide_Zdiv_eq; [exact Hg | apply Z.gcd_divide_r]. }
  assert (Hrel : Z.gcd (m / g) (q / g) = 1%Z).
  { apply Z.gcd_div_gcd; [lia | reflexivity]. }
  set (m' := (m / g)%Z) in *. set (q' := (q / g)%Z) in *.
  assert (Hq'pos : (0 < q')%Z) by nia.
  assert (Hm'pos : (0 <= m')%Z) by nia.
  assert (H' : (a * (q' * q') = m' * m')%Z).
  { apply (Z.mul_cancel_l _ _ (g * g)); [nia |]. rewrite Hm', Hq' in H. nia. }
  assert (Hdiv : (q' | m')%Z).
  { apply (Z.gauss q' m' m').
    - exists (a * q')%Z. lia.
    - rewrite Z.gcd_comm. exact Hrel. }
  assert (Hone : q' = 1%Z).
  { assert (Hd : (q' | 1)%Z).
    { rewrite <- Hrel. apply Z.gcd_greatest; [exact Hdiv | apply Z.divide_refl]. }
    apply Z.divide_1_r_nonneg in Hd; lia. }
  rewrite Hone in H'. rewrite Hq', Hm', Hone.
  replace a with (m' * m')%Z by lia.
  rewrite Z.sqrt_square by exact Hm'pos. lia.
Qed.

Lemma sqrtQ_exact : exactOnSquares sqrtQ.
Proof.
  intros [n d] [p q] Hy Hx. unfold sqrtQ, Qeq in *. cbn in *.
  unfold Qle in Hy. cbn in Hy.
  assert (Hp : (0 <= p)%Z) by lia.
  rewrite Pos2Z.inj_mul in Hx.
  assert (Hn : (0 <= n)%Z) by nia.
  apply sqrt_of_scaled_square; [nia | lia | nia | nia].
Qed.

Lemma Qabs_square x : (Qabs x * Qabs x == x * x)%Q.
Proof.
  apply Qabs_case; intros _; ring.
Qed.

(** X7: with a square root that is exact on squares, the balance of
    two teams is half the distance between their averages; it is 0
    exactly when the two averages are equal. *)
Theorem calculateTeamBalance_two_teams (sqrt : Q -> Q) (a b : Team) :
  exactOnSquares sqrt ->
  (calculateTeamBalance sqrt [a; b] == Qabs (avgTeamScore a - avgTeamScore b) / 2)%Q
  /\ ((calculateTeamBalance sqrt [a; b] == 0)%Q
      <-> (avgTeamScore a == avgTeamScore b)%Q).
Proof.
  intros Hsqrt.
  assert (H : (calculateTeamBalance sqrt [a; b]
               == Qabs (avgTeamScore a - avgTeamScore b) / 2)%Q).
  { unfold calculateTeamBalance. apply Hsqrt.
    - apply Qle_shift_div_l; [reflexivity |]. rewrite Qmult_0_l. apply Qabs_nonneg.
    - cbn [map length fold_left].
      set (x := avgTeamScore a). set (y := avgTeamScore b).
      transitivity ((x - y) * (x - y) / 4)%Q.
      + change (inject_Z (Z.of_nat 2)) with 2%Q. field.
      + rewrite <- (Qabs_square (x - y)). field. }
  split; [exact H |]. rewrite H. split.
  - intros E.
    assert (E0 : (Qabs (avgTeamScore a - avgTeamScore b) == 0)%Q).
    { set (z := Qabs (avgTeamScore a - avgTeamScore b)) in *.
      change (z / 2)%Q with (z * (1 # 2))%Q in E. lra. }
    pose proof (Qle_Qabs (avgTeamScore a - avgTeamScore b)) as H1.
    pose proof (Qle_Qabs (- (avgTeamScore a - avgTeamScore b))) as H2.
    rewrite Qabs_opp in H2. lra.
  - intros E.
    assert (E0 : (avgTeamScore a - avgTeamScore b == 0)%Q) by lra.
    rewrite E0. reflexivity.
Qed.

Lemma calculateTeamBalance_two_teams_witness :
  exactOnSquares sqrtQ
  /\ (calculateTeamBalance sqrtQ tenTeams == 15)%Q.
Proof.
  split; [exact sqrtQ_exact |].
  destruct tenTeams as [| a [| b [| c l]]] eqn:E; try discriminate E.
  destruct (calculateTeamBalance_two_teams sqrtQ a b sqrtQ_exact) as [H _].
  rewrite H. injection E as <- <-. vm_compute. reflexivity.
Defined.

End MoreVariance.

(** ** The match cache *)

Section MoreCache.

Import RiotApi Sample.

Lemma bind_inv {C D} (m : M C) (f : C -> M D) w out w' :
  bind m f w = Some (out, w') ->
  (exists e, m w = Some (Thrown e, w') /\ out = Thrown e)
  \/ (exists c w1, m w = Some (Returned c, w1) /\ f c w1 = Some (out, w')).
Proof.
  unfold bind. destruct (m w) as [[[c | e] w1] |]; intros H; [| | discriminate].
  - right. eauto.
  - injection H as <- <-. left. eauto.
Qed.

Lemma catch_inv {C} (m : M C) h w out w' :
  catch m h w = Some (out, w') ->
  exists o, m w = Some (o, w')
            /\ out = Returned (match o with Returned c => c | Thrown e => h e end).
Proof.
  unfold catch. destruct (m w) as [[[c | e] w1] |]; intros H; [| | discriminate];
    injection H as <- <-; eauto.
Qed.

Section Respects.

Context (R : World -> World -> Prop).
Context (R_refl : forall w, R w w).
Context (R_trans : forall w1 w2 w3, R w1 w2 -> R w2 w3 -> R w1 w3).

Lemma respects_ret {C} (c : C) : respects R (ret c).
Proof. intros w out w' H. injection H as _ <-. apply R_refl. Qed.

Lemma respects_bind {C D} (m : M C) (f : C -> M D) :
  respects R m -> (forall c, respects R (f c)) -> respects R (bind m f).
Proof.
  intros Hm Hf w out w' H. apply bind_inv in H as [(e & H & _) | (c & w1 & H1 & H2)].
  - eapply Hm, H.
  - eapply R_trans; [eapply Hm, H1 | eapply Hf, H2].
Qed.

Lemma respects_catch {C} (m : M C) h : respects R m -> respects R (catch m h).
Proof. intros Hm w out w' H. apply catch_inv in H as (o & H & _). eapply Hm, H. Qed.

Lemma respects_mapM {C D} (f : C -> M D) l :
  (forall c, respects R (f c)) -> respects R (mapM f l).
Proof.
  intros Hf. induction l as [| c l IH]; [apply respects_ret |].
  cbn [mapM]. apply respects_bind; [apply Hf |]. intros d.
  apply respects_bind; [exact IH |]. intros ds. apply respects_ret.
Qed.

End Respects.

Lemma cacheKept_refl w : cacheKept w w.
Proof. intros id o H. split; [exact H | reflexivity]. Qed.

Lemma cacheKept_trans w1 w2 w3 : cacheKept w1 w2 -> cacheKept w2 w3 -> cacheKept w1 w3.
Proof.
  intros H12 H23 id o H. destruct (H12 id o H) as [H2 E2].
  destruct (H23 id o H2) as [H3 E3]. split; [exact H3 | congruence].
Qed.

Lemma cacheTidy_refl w : cacheTidy w w.
Proof. split; [apply cacheKept_refl | intros id N; contradiction]. Qed.

Lemma cacheTidy_trans w1 w2 w3 : cacheTidy w1 w2 -> cacheTidy w2 w3 -> cacheTidy w1 w3.
Proof.
  intros [K12 T12] [K23 T23]. split; [eapply cacheKept_trans; eassumption |].
  intros id N.
  destruct (decide (attempts w2 (MatchById id) = attempts w1 (MatchById id))) as [E | N2].
  - apply T23. congruence.
  - destruct (T12 id N2) as [m Hm]. exists m. apply K23, Hm.
Qed.

(** A scheduled call adds requests for its own URL and waits, and
    nothing else; the cache is not its business. *)
Lemma schedule_concerns {A B} (api : nat -> Outcome A) req (data : A -> B) fallback n :
  forall w out w',
    schedule n (guardedGet api req data fallback) w = Some (out, w') ->
    exists evs, w' = after w evs /\ concerns req evs.
Proof.
  induction n as [| n IH]; intros w out w' H; [discriminate |].
  rewrite schedule_S, guardedGet_eq in H.
  assert (Hone : concerns req [Called req]).
  { constructor; [left; reflexivity | constructor]. }
  destruct (api _) as [d | e].
  - injection H as _ <-. eauto.
  - destruct (is429 e) eqn:E.
    + unfold onFailed in H. rewrite E in H.
      apply IH in H as (evs & -> & Hevs).
      rewrite wait_after, after_after. eexists. split; [reflexivity |].
      unfold concerns in *. rewrite !Forall_app. repeat split; try assumption.
      constructor; [right; eauto | constructor].
    + injection H as _ <-. eauto.
Qed.

Lemma attempts_other req r evs w :
  concerns req evs -> r <> req -> attempts (after w evs) r = attempts w r.
Proof.
  intros Hevs Hr. rewrite attempts_after.
  assert (count_occ Event_eq_dec evs (Called r) = 0); [| lia].
  apply count_occ_not_In. intros Hin.
  unfold concerns in Hevs. rewrite Forall_forall in Hevs.
  destruct (Hevs (Called r)) as [E | [d E]].
  - apply list_elem_of_In, Hin.
  - injection E as E. contradiction.
  - discriminate.
Qed.

Lemma cacheTidy_after req evs w :
  concerns req evs -> (forall matchId, req <> MatchById matchId) ->
  cacheTidy w (after w evs).
Proof.
  intros Hevs Hreq. split.
  - intros id o H. split; [exact H |].
    apply (attempts_other req); [exact Hevs | intros E; eapply Hreq; eauto].
  - intros id N. exfalso. apply N.
    apply (attempts_other req); [exact Hevs | intros E; eapply Hreq; eauto].
Qed.

Lemma getAccount_tidy up n g tl : respects cacheTidy (getAccountByRiotId up n g tl).
Proof.
  intros w out w' H. apply schedule_concerns in H as (evs & -> & Hevs).
  eapply cacheTidy_after; [exact Hevs | discriminate].
Qed.

Lemma getLeagues_tidy up n p : respects cacheTidy (getLeagueEntriesByPuuid up n p).
Proof.
  intros w out w' H. apply schedule_concerns in H as (evs & -> & Hevs).
  eapply cacheTidy_after; [exact Hevs | discriminate].
Qed.

Lemma getHistory_tidy up n p c : respects cacheTidy (getMatchHistory up n p c).
Proof.
  intros w out w' H. apply schedule_concerns in H as (evs & -> & Hevs).
  eapply cacheTidy_after; [exact Hevs | discriminate].
Qed.

Lemma getMatchDetails_tidy up n matchId : respects cacheTidy (getMatchDetails up n matchId).
Proof.
  intros w out w' H. unfold getMatchDetails in H.
  destruct (matchCache w !! matchId) as [cached |] eqn:Hc.
  - injection H as _ <-. apply cacheTidy_refl.
  - destruct (schedule _ _ w) as [[o w1] |] eqn:Hs; [| discriminate].
    injection H as _ <-.
    destruct (schedule_never_throws _ _ _ _ _ _ _ _ Hs) as [m ->].
    apply schedule_concerns in Hs as (evs & -> & Hevs).
    split.
    + intros id o' Hid.
      assert (Hne : id <> matchId) by congruence.
      split.
      * cbn. rewrite lookup_insert_ne by congruence. exact Hid.
      * change (attempts (after w evs) (MatchById id) = attempts w (MatchById id)).
        apply (attempts_other (MatchById matchId)); [exact Hevs | congruence].
    + intros id N. exists m.
      destruct (decide (id = matchId)) as [-> | Hne].
      * cbn. apply lookup_insert_eq.
      * exfalso. apply N.
        change (attempts (after w evs) (MatchById id) = attempts w (MatchById id)).
        apply (attempts_other (MatchById matchId)); [exact Hevs | congruence].
Qed.

Lemma analyze_tidy log10 up retries g tl :
  respects cacheTidy (analyzePlayerStats log10 up retries g tl).
Proof.
  pose proof cacheTidy_refl as Hr. pose proof cacheTidy_trans as Ht.
  unfold analyzePlayerStats.
  apply respects_bind; [exact Ht | apply respects_catch, getAccount_tidy |].
  intros [account |]; [| apply respects_ret, Hr].
  apply respects_bind; [exact Ht | |].
  { apply respects_catch, respects_bind; [exact Ht | apply getLeagues_tidy |].
    intros; apply respects_ret, Hr. }
  intros rankInfo.
  apply respects_bind; [exact Ht | apply respects_catch, getHistory_tidy |].
  intros [| matchId matchIds]; [apply respects_ret, Hr |].
  apply respects_bind; [exact Ht | | intros; apply respects_ret, Hr].
  apply respects_mapM; [exact Hr | exact Ht |].
  intros id. apply respects_catch, getMatchDetails_tidy.
Qed.

(** X8: an analysis leaves the match cache as it found it or larger: no
    entry is dropped or replaced, and a match that was cached when the
    analysis began is not requested from the upstream again, whatever the
    upstream answers and however the analysis ends. *)
Theorem analyzePlayerStats_keeps_cache (log10 : Q -> Q) (up : Upstream) (retries : nat)
    (g tl : string) (w w' : World) (out : Outcome PlayerStats) :
  analyzePlayerStats log10 up retries g tl w = Some (out, w') ->
  forall matchId o,
    matchCache w !! matchId = Some o ->
    matchCache w' !! matchId = Some o
    /\ attempts w' (MatchById matchId) = attempts w (MatchById matchId).
Proof. intros H. apply (analyze_tidy _ _ _ _ _ _ _ _ H). Qed.

Lemma analyzePlayerStats_keeps_cache_witness :
  let w := {| trace := []; matchCache := {[ "KR_1" := Returned None ]} |} in
  exists out w',
    analyzePlayerStats noLog upstream1 1 "Hide on bush" "KR1" w = Some (out, w')
    /\ matchCache w !! "KR_1" = Some (Returned None)
    /\ matchCache w' !! "KR_1" = Some (Returned None)
    /\ attempts w' (MatchById "KR_1") = 0.
Proof.
  intros w. eexists. eexists. split; [vm_compute; reflexivity |].
  split; [vm_compute; reflexivity |].
  eapply (analyzePlayerStats_keeps_cache noLog upstream1 1 "Hide on bush" "KR1" w).
  - vm_compute. reflexivity.
  - vm_compute. reflexivity.
Defined.

(** X9: every match that an analysis requests from the upstream is in
    the cache when the analysis ends, and the promise stored for it has
    resolved, with the match or with [null]: a rejected promise is never
    cached by an analysis. *)
Theorem requested_matches_are_cached (log10 : Q -> Q) (up : Upstream) (retries : nat)
    (g tl : string) (w w' : World) (out : Outcome PlayerStats) (matchId : string) :
  analyzePlayerStats log10 up retries g tl w = Some (out, w') ->
  attempts w' (MatchById matchId) <> attempts w (MatchById matchId) ->
  exists m, matchCache w' !! matchId = Some (Returned m).
Proof. intros H. apply (analyze_tidy _ _ _ _ _ _ _ _ H). Qed.

Lemma requested_matches_are_cached_witness :
  exists out w',
    analyzePlayerStats noLog upstream1 1 "Hide on bush" "KR1" emptyWorld = Some (out, w')
    /\ attempts w' (MatchById "KR_2") <> attempts emptyWorld (MatchById "KR_2")
    /\ exists m, matchCache w' !! "KR_2" = Some (Returned m).
Proof.
  eexists. eexists. split; [vm_compute; reflexivity |].
  split; [vm_compute; discriminate |].
  eapply (requested_matches_are_cached noLog upstream1 1 "Hide on bush" "KR1" emptyWorld).
  - vm_compute. reflexivity.
  - vm_compute. discriminate.
Defined.

End MoreCache.

(** ** Errors other than throttling *)

Section MoreFetcher.

Import RiotApi Sample.

Lemma absorbed {A B} (api : nat -> Outcome A) req (data : A -> B) fallback n w e :
  is429 e = false ->
  api (attempts w req) = Thrown e ->
  schedule (S n) (guardedGet api req data fallback) w
  = Some (Returned fallback, after w [Called req]).
Proof.
  intros He Hapi. rewrite schedule_S, guardedGet_eq, Hapi, He. reflexivity.
Qed.

(** X10: an upstream error that is not a 429 (a 403, a 404, a 5xx, or
    no response at all) is not retried and not thrown: after the one
    request and without a wait, looking up an account gives [null],
    league entries and match history give the empty list, and match
    details give [null], which is also what the cache then holds for the
    match. *)
Theorem other_errors_are_absorbed (up : Upstream) (n : nat) (w : World) (e : ApiError) :
  is429 e = false ->
  (forall g tl,
      accountApi up g tl (attempts w (AccountByRiotId g tl)) = Thrown e ->
      getAccountByRiotId up (S n) g tl w
      = Some (Returned None, after w [Called (AccountByRiotId g tl)]))
  /\ (forall p,
        leagueApi up p (attempts w (LeagueEntriesByPuuid p)) = Thrown e ->
        getLeagueEntriesByPuuid up (S n) p w
        = Some (Returned [], after w [Called (LeagueEntriesByPuuid p)]))
  /\ (forall p c,
        matchIdsApi up p c (attempts w (MatchIdsByPuuid p c)) = Thrown e ->
        getMatchHistory up (S n) p c w
        = Some (Returned [], after w [Called (MatchIdsByPuuid p c)]))
  /\ (forall m,
        matchApi up m (attempts w (MatchById m)) = Thrown e ->
        matchCache w !! m = None ->
        getMatchDetails up (S n) m w
        = Some (Returned None,
                {| trace := trace w ++ [Called (MatchById m)];
                   matchCache := <[m := Returned None]> (matchCache w) |})).
Proof.
  intros He. repeat split.
  - intros g tl H. apply (absorbed _ _ _ _ _ _ _ He H).
  - intros p H. apply (absorbed _ _ _ _ _ _ _ He H).
  - intros p c H. apply (absorbed _ _ _ _ _ _ _ He H).
  - intros m H Hc. unfold getMatchDetails. rewrite Hc.
    rewrite (absorbed _ _ _ _ _ _ _ He H). reflexivity.
Qed.

Lemma other_errors_are_absorbed_witness :
  is429 serverError = false
  /\ getMatchDetails upstream2 3 "KR_9" emptyWorld
     = Some (Returned None,
             {| trace := [Called (MatchById "KR_9")];
                matchCache := <["KR_9" := Returned None]> ∅ |}).
Proof.
  split; [reflexivity |].
  apply (other_errors_are_absorbed upstream2 2 emptyWorld serverError); reflexivity.
Defined.

(** X11: of the league entries of a player the solo-queue entry is
    used wherever it stands in the list; the flex-queue entry is used
    only when there is no solo-queue entry; other queues are never used;
    and among several entries of the chosen queue the first counts. *)
Theorem pickRank_prefers_solo (leagues : list LeagueEntry) :
  match pickRank leagues with
  | Some r =>
      exists i,
        leagues !! i = Some r
        /\ (queueType r = "RANKED_SOLO_5x5"
            \/ (queueType r = "RANKED_FLEX_SR"
                /\ forall l, l ∈ leagues -> queueType l <> "RANKED_SOLO_5x5"))
        /\ forall j l, j < i -> leagues !! j = Some l -> queueType l <> queueType r
  | None =>
      forall l, l ∈ leagues ->
        queueType l <> "RANKED_SOLO_5x5" /\ queueType l <> "RANKED_FLEX_SR"
  end.
Proof.
  assert (Hfind : forall q,
    match List.find (fun l => String.eqb (queueType l) q) leagues with
    | Some r => exists i, leagues !! i = Some r /\ queueType r = q
                          /\ forall j l, j < i -> leagues !! j = Some l -> queueType l <> q
    | None => forall l, l ∈ leagues -> queueType l <> q
    end).
  { intros q. induction leagues as [| l0 ls IH]; cbn [List.find].
    - intros l Hl. inversion Hl.
    - destruct (String.eqb_spec (queueType l0) q) as [E | N].
      + exists 0. repeat split; [exact E | intros j l Hj; lia].
      + destruct (List.find _ ls) as [r |].
        * destruct IH as (i & Hi & Hq & Hfirst). exists (S i).
          repeat split; [exact Hi | exact Hq |].
          intros [| j] l Hj Hl; [injection Hl as <-; exact N |].
          apply (Hfirst j); [lia | exact Hl].
        * intros l Hl. apply elem_of_cons in Hl as [-> | Hl]; [exact N | apply IH, Hl]. }
  unfold pickRank.
  pose proof (Hfind "RANKED_SOLO_5x5") as Hsolo.
  pose proof (Hfind "RANKED_FLEX_SR") as Hflex.
  destruct (List.find _ leagues) as [solo |].
  - destruct Hsolo as (i & Hi & Hq & Hfirst). exists i.
    repeat split; [exact Hi | left; exact Hq | rewrite Hq; exact Hfirst].
  - destruct (List.find _ leagues) as [flex |].
    + destruct Hflex as (i & Hi & Hq & Hfirst). exists i.
      repeat split; [exact Hi | right; split; [exact Hq | exact Hsolo]
                    | rewrite Hq; exact Hfirst].
    + intros l Hl. split; [apply Hsolo, Hl | apply Hflex, Hl].
Qed.

End MoreFetcher.

(** ** Ranges of the published statistics *)

Section MoreStats.

Import RiotApi Sample.

Lemma round2_mono x y : (x <= y)%Q -> (Js.round2 x <= Js.round2 y)%Q.
Proof.
  intros H. unfold Js.round2, Js.round.
  apply Qmult_le_compat_r; [| discriminate].
  rewrite <- Zle_Qle. apply Qfloor_resp_le. lra.
Qed.

Lemma round2_range x : (0 <= x <= 100)%Q -> (0 <= Js.round2 x <= 100)%Q.
Proof.
  intros [H0 H100]. split.
  - apply (Qle_trans _ (Js.round2 0)); [discriminate | apply round2_mono, H0].
  - apply (Qle_trans _ (Js.round2 100)); [apply round2_mono, H100 | discriminate].
Qed.

Lemma addMatch_wins p t m :
  (wins' t <= wins' (addMatch p t m) <= wins' t + 1)%Z.
Proof.
  unfold addMatch. destruct (List.find _ _) as [pt |]; [| lia].
  cbn. destruct (win pt); lia.
Qed.

Lemma fold_wins p ms :
  forall t, (wins' t <= wins' (fold_left (addMatch p) ms t)
             <= wins' t + Z.of_nat (length ms))%Z.
Proof.
  induction ms as [| m ms IH]; intros t; cbn [fold_left length]; [lia |].
  specialize (IH (addMatch p t m)). pose proof (addMatch_wins p t m). lia.
Qed.

Lemma winRate_range t n :
  0 < n -> (0 <= wins' t <= Z.of_nat n)%Z -> (0 <= recentWinRateOf t n <= 100)%Q.
Proof.
  intros Hn [H0 H1]. unfold recentWinRateOf, perGame.
  assert (HN : (0 < inject_Z (Z.of_nat n))%Q).
  { change 0%Q with (inject_Z 0). rewrite <- Zlt_Qlt. lia. }
  assert (HW0 : (0 <= inject_Z (wins' t))%Q).
  { change 0%Q with (inject_Z 0). rewrite <- Zle_Qle. exact H0. }
  assert (HW1 : (inject_Z (wins' t) <= inject_Z (Z.of_nat n))%Q).
  { rewrite <- Zle_Qle. exact H1. }
  assert (Hlo : (0 <= inject_Z (wins' t) / inject_Z (Z.of_nat n))%Q).
  { apply Qle_shift_div_l; [exact HN | lra]. }
  assert (Hhi : (inject_Z (wins' t) / inject_Z (Z.of_nat n) <= 1)%Q).
  { apply Qle_shift_div_r; [exact HN | lra]. }
  lra.
Qed.

Lemma increment_total (o : list (string * Z)) k :
  countsTotal (increment o k)
  = (countsTotal o + Z.of_nat (count_occ string_dec (map fst o) k))%Z.
Proof.
  unfold countsTotal, increment. induction o as [| [k' v] o IH]; [reflexivity |].
  cbn [map fold_right fst snd]. rewrite IH.
  destruct (String.eqb_spec k' k) as [E | N].
  - rewrite count_occ_cons_eq by exact E. cbn [snd]. lia.
  - rewrite count_occ_cons_neq by exact N. cbn [snd]. lia.
Qed.

Lemma increment_nonneg (o : list (string * Z)) k :
  Forall (fun e => (0 <= snd e)%Z) o -> Forall (fun e => (0 <= snd e)%Z) (increment o k).
Proof.
  intros H. unfold increment. induction H as [| [k' v] o Hv Ho IH]; [constructor |].
  cbn [map fst snd] in *. constructor; [| exact IH].
  destruct (String.eqb k' k); cbn [snd]; lia.
Qed.

Lemma addMatch_counts p t m :
  map fst (laneCount t) = laneKeys ->
  Forall (fun e => (0 <= snd e)%Z) (laneCount t) ->
  Forall (fun e => (0 <= snd e)%Z) (laneCount (addMatch p t m))
  /\ (countsTotal (laneCount (addMatch p t m)) <= countsTotal (laneCount t) + 1)%Z.
Proof.
  intros Hk Hpos. unfold addMatch. destruct (List.find _ _) as [pt |]; [| split; [exact Hpos | lia]].
  cbn [laneCount]. destruct (_ && _); [| split; [exact Hpos | lia]].
  split; [apply increment_nonneg, Hpos |].
  rewrite increment_total, Hk.
  assert (count_occ string_dec laneKeys (Js.orStr (individualPosition pt) (teamPosition pt)) <= 1);
    [| lia].
  apply NoDup_count_occ. unfold laneKeys.
  repeat (constructor; [cbn; intuition discriminate |]). constructor.
Qed.

Lemma fold_counts p ms :
  forall t,
    map fst (laneCount t) = laneKeys ->
    Forall (fun e => (0 <= snd e)%Z) (laneCount t) ->
    Forall (fun e => (0 <= snd e)%Z) (laneCount (fold_left (addMatch p) ms t))
    /\ (countsTotal (laneCount (fold_left (addMatch p) ms t))
        <= countsTotal (laneCount t) + Z.of_nat (length ms))%Z.
Proof.
  induction ms as [| m ms IH]; intros t Hk Hpos; cbn [fold_left length].
  - split; [exact Hpos | lia].
  - destruct (addMatch_counts p t m Hk Hpos) as [Hpos' Hsum].
    destruct (IH (addMatch p t m)) as [Hpos'' Hsum'']; [| exact Hpos' |].
    + rewrite addMatch_keys. exact Hk.
    + split; [exact Hpos'' | lia].
Qed.

Lemma aggregate_counts p ms :
  exists c1 c2 c3 c4 c5,
    laneCount (aggregate p ms)
    = [("TOP", c1); ("JUNGLE", c2); ("MIDDLE", c3); ("BOTTOM", c4); ("UTILITY", c5)]
    /\ (0 <= c1 /\ 0 <= c2 /\ 0 <= c3 /\ 0 <= c4 /\ 0 <= c5)%Z
    /\ (c1 + c2 + c3 + c4 + c5 <= Z.of_nat (length ms))%Z.
Proof.
  destruct (five_counts _ (aggregate_keys p ms)) as (c1 & c2 & c3 & c4 & c5 & E).
  exists c1, c2, c3, c4, c5. split; [exact E |].
  destruct (fold_counts p ms initTotals) as [Hpos Hsum].
  - reflexivity.
  - cbn. repeat constructor; cbn; lia.
  - fold (aggregate p ms) in Hpos, Hsum. rewrite E in Hpos, Hsum.
    unfold countsTotal in Hsum. cbn in Hsum.
    repeat match goal with
           | H : Forall _ (_ :: _) |- _ => apply Forall_cons in H as [? H]
           end.
    cbn [snd] in *. lia.
Qed.

Lemma scored_in_range (log10 : Q -> Q) (g tl : string) (account : RiotAccount)
    (rankInfo : option LeagueEntry) (matches : list MatchDto) :
  let s := scoreMatches log10 g tl account rankInfo matches in
  (0 <= winRate s <= 100)%Q
  /\ (forall lane, 0 <= gamesIn lane s)%Z
  /\ (gamesIn TOP s + gamesIn JUNGLE s + gamesIn MIDDLE s + gamesIn BOTTOM s
      + gamesIn UTILITY s <= Z.of_nat (length matches))%Z.
Proof.
  intros s. unfold s, scoreMatches.
  assert (Hzero : forall (z : PlayerStats),
            winRate z = 0%Q ->
            laneDistribution z
            = {| cTOP := 0; cJUNGLE := 0; cMIDDLE := 0; cBOTTOM := 0; cUTILITY := 0 |} ->
            (0 <= winRate z <= 100)%Q
            /\ (forall lane, 0 <= gamesIn lane z)%Z
            /\ (gamesIn TOP z + gamesIn JUNGLE z + gamesIn MIDDLE z + gamesIn BOTTOM z
                + gamesIn UTILITY z <= Z.of_nat (length matches))%Z).
  { intros z Hw Hd. unfold gamesIn. rewrite Hw, Hd. cbn.
    split; [split; discriminate |]. split; [intros []; cbn; lia | lia]. }
  destruct (Nat.eqb_spec (length matches) 0) as [E | N]; [apply Hzero; reflexivity |].
  destruct (preferredLaneOf _) as [lane |]; [| apply Hzero; reflexivity].
  destruct (aggregate_counts (acc_puuid account) matches)
    as (c1 & c2 & c3 & c4 & c5 & Ec & Hpos & Hsum).
  unfold gamesIn. cbn [winRate laneDistribution laneGames cTOP cJUNGLE cMIDDLE cBOTTOM cUTILITY].
  rewrite Ec. unfold countOf. cbn [Js.prop String.eqb Ascii.eqb Bool.eqb default].
  split; [| split; [intros []; cbn; lia | cbn; lia]].
  apply round2_range, winRate_range; [lia |].
  pose proof (fold_wins (acc_puuid account) matches initTotals) as Hw.
  fold (aggregate (acc_puuid account) matches) in Hw. cbn in Hw. lia.
Qed.

(** X12: the statistics computed from the fetched matches are in range
    whatever the matches hold: the win rate lies between 0 and 100, no
    role has a negative count, and the five counts together do not exceed
    the number of matches. *)
Theorem scoreMatches_ranges (log10 : Q -> Q) (g tl : string) (account : RiotAccount)
    (rankInfo : option LeagueEntry) (matches : list MatchDto) :
  let s := scoreMatches log10 g tl account rankInfo matches in
  (0 <= winRate s <= 100)%Q
  /\ (forall lane, 0 <= gamesIn lane s)%Z
  /\ (gamesIn TOP s + gamesIn JUNGLE s + gamesIn MIDDLE s + gamesIn BOTTOM s
      + gamesIn UTILITY s <= Z.of_nat (length matches))%Z.
Proof. apply scored_in_range. Qed.

Lemma scoreMatches_identity log10 g tl account rankInfo matches :
  gameName (scoreMatches log10 g tl account rankInfo matches) = g
  /\ tagLine (scoreMatches log10 g tl account rankInfo matches) = tl.
Proof.
  unfold scoreMatches. destruct (Nat.eqb _ _); [split; reflexivity |].
  destruct (preferredLaneOf _); split; reflexivity.
Qed.

Lemma analyze_returns log10 up retries g tl w out w' :
  analyzePlayerStats log10 up retries g tl w = Some (out, w') ->
  exists s, out = Returned s /\ gameName s = g /\ tagLine s = tl.
Proof.
  intros H. apply analyze_shape in H as [-> | (account & rankInfo & matches & ->)].
  - eexists. split; [reflexivity | split; reflexivity].
  - eexists. split; [reflexivity | apply scoreMatches_identity].
Qed.

(** X13: whatever the upstream answers, the statistics that an
    analysis returns carry the name and tag they were asked for, a win
    rate between 0 and 100 and no negative role count. *)
Theorem analyzePlayerStats_well_formed (log10 : Q -> Q) (up : Upstream) (retries : nat)
    (g tl : string) (w w' : World) (s : PlayerStats) :
  analyzePlayerStats log10 up retries g tl w = Some (Returned s, w') ->
  gameName s = g /\ tagLine s = tl
  /\ (0 <= winRate s <= 100)%Q
  /\ (forall lane, 0 <= gamesIn lane s)%Z.
Proof.
  intros H. apply analyze_shape in H as [H | (account & rankInfo & matches & H)];
    injection H as ->.
  - repeat split; try discriminate. intros []; cbn; lia.
  - destruct (scored_in_range log10 g tl account rankInfo matches) as (Hw & Hc & _).
    destruct (scoreMatches_identity log10 g tl account rankInfo matches) as [Hg Ht].
    repeat split; try apply Hw; try apply Hc; assumption.
Qed.

Lemma analyzePlayerStats_well_formed_witness :
  exists s w',
    analyzePlayerStats noLog upstream1 1 "Hide on bush" "KR1" emptyWorld
    = Some (Returned s, w')
    /\ gameName s = "Hide on bush"
    /\ (0 <= winRate s <= 100)%Q.
Proof.
  eexists. eexists. split; [vm_compute; reflexivity |].
  edestruct (analyzePlayerStats_well_formed noLog upstream1 1 "Hide on bush" "KR1" emptyWorld)
    as (Hg & _ & Hw & _).
  - vm_compute. reflexivity.
  - split; [exact Hg | exact Hw].
Defined.

End MoreStats.

(** ** The handlers *)

Section MoreHandlers.

Import RiotApi ApiRoutes PlayerRoutes Sample.

Context (log10 sqrt : Q -> Q) (up : Upstream) (retries : nat).

Lemma mapM_related {C D} (f : C -> M D) (P : C -> D -> Prop) l :
  (forall c w out w', f c w = Some (out, w') -> exists d, out = Returned d /\ P c d) ->
  forall w out w',
    mapM f l w = Some (out, w') -> exists ds, out = Returned ds /\ Forall2 P l ds.
Proof.
  intros Hf. induction l as [| c l IH]; intros w out w' H; simpl in H.
  - injection H as <- _. exists []. split; [reflexivity | constructor].
  - unfold bind at 1 in H.
    destruct (f c w) as [[o w1] |] eqn:E; [| discriminate].
    destruct (Hf _ _ _ _ E) as (d & -> & Hd).
    unfold bind at 1 in H.
    destruct (mapM f l w1) as [[o w2] |] eqn:E2; [| discriminate].
    destruct (IH _ _ _ E2) as (ds & -> & Hall).
    injection H as <- _. exists (d :: ds). split; [reflexivity | constructor; assumption].
Qed.

(** X14: [GET /player] never answers with status 400: whatever the
    upstream does, the answer carries stats, and these bear the name and
    tag of the request. *)
Theorem getPlayer_never_fails (g tl : string) (w w' : World) (resp : PlayerResponse) :
  getPlayer log10 up retries g tl w = Some (resp, w') ->
  exists s, resp = PlayerData s /\ gameName s = g /\ tagLine s = tl.
Proof.
  unfold getPlayer. intros H.
  destruct (analyzePlayerStats _ _ _ _ _ w) as [[out w1] |] eqn:E; [| discriminate].
  destruct (analyze_returns _ _ _ _ _ _ _ _ E) as (s & -> & Hg & Ht).
  injection H as <- _. eauto.
Qed.

Lemma analyzeOrError_left p w out w' :
  analyzeOrError log10 up retries p w = Some (out, w') ->
  exists r, out = Returned r /\ exists s, r = inl s /\ identityOf s = p.
Proof.
  unfold analyzeOrError. intros H. apply catch_inv in H as (o & H & ->).
  apply bind_inv in H as [(e & H & ->) | (s & w1 & H & Hr)].
  - apply analyze_returns in H as (s & Hs & _). discriminate.
  - apply analyze_returns in H as (s' & Hs & Hg & Ht). injection Hs as ->.
    injection Hr as <- _. eexists. split; [reflexivity |]. exists s'.
    split; [reflexivity |]. unfold identityOf. rewrite Hg, Ht. destruct p; reflexivity.
Qed.

(** X15: [POST /players] answers an empty list with status 400 and
    without a request to the upstream.  For any other list it never
    reports a failed player and never answers with status 500: every
    requested identity, known to the upstream or not, is listed as
    successful, in the order of the request, and the counts are the
    length of the request, the same again, and 0. *)
Theorem postPlayers_all_successful (players : list Identity) (w w' : World)
    (resp : PlayersResponse) :
  postPlayers log10 up retries players w = Some (resp, w') ->
  (players = [] /\ resp = PlayersBadRequest /\ w' = w)
  \/ (players <> []
      /\ exists successful,
           resp = PlayersData successful [] (length players) (length players) 0
           /\ map identityOf successful = players).
Proof.
  unfold postPlayers. intros H.
  destruct players as [| p players]; [injection H as <- <-; left; auto |].
  right. split; [discriminate |].
  change (Nat.eqb (length (p :: players)) 0) with false in H. cbv iota in H.
  destruct (mapM _ _ w) as [[out w1] |] eqn:E; [| discriminate].
  apply (mapM_related _ (fun q r => exists s, r = inl s /\ identityOf s = q)) in E
    as (results & -> & Hall); [| apply analyzeOrError_left].
  injection H as <- _.
  assert (Hres : exists stats,
            results = map inl stats /\ map identityOf stats = p :: players).
  { clear -Hall. induction Hall as [| q r qs rs (s & -> & Hs) _ (stats & -> & IH)].
    - exists []. split; reflexivity.
    - exists (s :: stats). cbn. rewrite Hs, IH. split; reflexivity. }
  destruct Hres as (stats & -> & Hid).
  assert (Hs : omap (fun r : PlayerStats + FailedPlayer =>
                       match r with inl s => Some s | inr _ => None end)
                    (map inl stats) = stats).
  { clear. induction stats as [| s stats IH]; [reflexivity |]. cbn. rewrite IH. reflexivity. }
  assert (Hf : omap (fun r : PlayerStats + FailedPlayer =>
                       match r with inl _ => None | inr f => Some f end)
                    (map inl stats) = []).
  { clear. induction stats as [| s stats IH]; [reflexivity |]. cbn. exact IH. }
  rewrite Hs, Hf. exists stats. split; [| exact Hid].
  rewrite <- Hid at 2. rewrite length_map. reflexivity.
Qed.

Lemma analyzeOne_identity p w out w' :
  analyzeOne log10 up retries p w = Some (out, w') ->
  exists r, out = Returned r /\ exists s, r = Some s /\ identityOf s = p.
Proof.
  unfold analyzeOne. intros H. apply catch_inv in H as (o & H & ->).
  apply bind_inv in H as [(e & H & ->) | (s & w1 & H & Hr)].
  - apply analyze_returns in H as (s & Hs & _). discriminate.
  - apply analyze_returns in H as (s' & Hs & Hg & Ht). injection Hs as ->.
    injection Hr as <- _. eexists. split; [reflexivity |]. exists s'.
    split; [reflexivity |]. unfold identityOf. rewrite Hg, Ht. destruct p; reflexivity.
Qed.

Lemma omap_step {C D} (f : C -> option D) x l :
  omap f (x :: l) = match f x with Some y => y :: omap f l | None => omap f l end.
Proof. reflexivity. Qed.

Lemma pushed_in_order (stats : list PlayerStats) :
  pushed (map Some stats) (seq 0 (length stats)) = stats.
Proof.
  unfold pushed.
  assert (H : forall pre,
            omap (fun i => mjoin ((map Some (pre ++ stats)) !! i))
                 (seq (length pre) (length stats)) = stats).
  { induction stats as [| s stats IH]; intros pre; [reflexivity |].
    cbn [length seq]. rewrite omap_step.
    rewrite list_lookup_fmap, lookup_app_r by lia.
    rewrite Nat.sub_diag. cbn [lookup list_lookup fmap option_fmap option_map mjoin option_join].
    f_equal. specialize (IH (pre ++ [s])).
    rewrite <- app_assoc, length_app in IH. cbn in IH.
    rewrite Nat.add_1_r in IH. exact IH. }
  apply (H []).
Qed.

Lemma divided_members ps teams :
  TeamMaker.divideIntoTeams ps = TeamMaker.Ok teams ->
  concat (map Types.players teams) ≡ₚ ps.
Proof.
  intros H.
  destruct (valid_or_not (length ps)) as [[Hn Hm] | Hbad].
  - assert (Ht : 0 < length ps / 5) by (apply Nat.div_str_pos; lia).
    rewrite divideIntoTeams_ok in H by assumption. injection H as <-.
    set (t := length ps / 5) in *.
    rewrite map_map. simpl. rewrite pick_partition by exact Ht. apply sort_perm.
  - rewrite divideIntoTeams_invalid in H by exact Hbad. discriminate.
Qed.

(** X17: when [POST /divide-teams] completes, every submitted identity
    sits in exactly one team: the names and tags of the members of all
    teams are, up to order, the submitted list, duplicates included.  The
    balance it reports is the rounded balance of these teams. *)
Theorem divideTeams_places_everyone (players : list Identity) (completion : list nat)
    (w w' : World) (teams : list Team) (balance : Q) :
  completion ≡ₚ seq 0 (length players) ->
  divideTeams log10 sqrt up retries players completion w
  = Some (Complete teams balance, w') ->
  map identityOf (concat (map Types.players teams)) ≡ₚ players
  /\ balance = Js.round2 (TeamMaker.calculateTeamBalance sqrt teams).
Proof.
  intros Hperm H. unfold divideTeams in H.
  destruct (_ || _); [discriminate |].
  destruct (mapM _ _ w) as [[out w1] |] eqn:E; [| discriminate].
  apply (mapM_related _ (fun q r => exists s, r = Some s /\ identityOf s = q)) in E
    as (results & -> & Hall); [| apply analyzeOne_identity].
  assert (Hres : exists stats,
            results = map Some stats /\ map identityOf stats = players).
  { clear -Hall. induction Hall as [| q r qs rs (s & -> & Hs) _ (stats & -> & IH)].
    - exists []. split; reflexivity.
    - exists (s :: stats). cbn. rewrite Hs, IH. split; reflexivity. }
  destruct Hres as (stats & -> & Hid).
  assert (Hpushed : pushed (map Some stats) completion ≡ₚ stats).
  { rewrite <- (pushed_in_order stats) at 2. unfold pushed.
    apply omap_Permutation. rewrite Hperm, <- Hid, length_map. reflexivity. }
  destruct (Nat.ltb _ 10); [discriminate |].
  destruct (TeamMaker.divideIntoTeams _) as [teams' | e] eqn:Hdiv; [| discriminate].
  injection H as <- <- _. split; [| reflexivity].
  rewrite (divided_members _ _ Hdiv), Hpushed. rewrite Hid. reflexivity.
Qed.

End MoreHandlers.

(** ** The handlers on the sample upstream *)

Section MoreExamples.

Import RiotApi ApiRoutes PlayerRoutes Sample.

Lemma getPlayer_never_fails_witness :
  exists resp w',
    getPlayer noLog upstream1 1 "nobody" "KR1" emptyWorld = Some (resp, w')
    /\ exists s, resp = PlayerData s /\ gameName s = "nobody" /\ tagLine s = "KR1".
Proof.
  eexists. eexists. split; [vm_compute; reflexivity |].
  eapply (getPlayer_never_fails noLog upstream1 1 "nobody" "KR1" emptyWorld).
  vm_compute. reflexivity.
Defined.

Lemma postPlayers_all_successful_witness :
  exists resp w',
    postPlayers noLog upstream1 1 (firstn 2 tenIdentities) emptyWorld = Some (resp, w')
    /\ exists successful,
         resp = PlayersData successful [] 2 2 0
         /\ map identityOf successful = firstn 2 tenIdentities.
Proof.
  eexists. eexists. split; [vm_compute; reflexivity |].
  edestruct (postPlayers_all_successful noLog upstream1 1 (firstn 2 tenIdentities)
               emptyWorld) as [(N & _) | (_ & H)].
  - vm_compute. reflexivity.
  - discriminate N.
  - exact H.
Defined.

Lemma divideTeams_places_everyone_witness :
  seq 0 10 ≡ₚ seq 0 (length tenIdentities)
  /\ exists teams balance w',
       divideTeams noLog sqrtQ upstream1 1 tenIdentities (seq 0 10) emptyWorld
       = Some (Complete teams balance, w')
       /\ map identityOf (concat (map Types.players teams)) ≡ₚ tenIdentities.
Proof.
  split; [reflexivity |].
  do 3 eexists. split; [vm_compute; reflexivity |].
  eapply (divideTeams_places_everyone noLog sqrtQ upstream1 1 tenIdentities (seq 0 10)
            emptyWorld).
  - reflexivity.
  - vm_compute. reflexivity.
Defined.

End MoreExamples.

(** ** Order of submission, and a hint that is not a number *)

Section MoreOrder.

Import RiotApi TeamMaker Sample.

Lemma descending_perm_eq (l1 : list PlayerStats) :
  forall l2,
    l1 ≡ₚ l2 -> descending l1 -> descending l2 -> scoresTellApart l1 -> l1 = l2.
Proof.
  induction l1 as [| x l1 IH]; intros l2 Hperm H1 H2 Hdist.
  - apply Permutation_nil in Hperm. congruence.
  - destruct l2 as [| y l2]; [symmetry in Hperm; apply Permutation_nil in Hperm; discriminate |].
    assert (Hxy : x = y).
    { destruct (decide (x = y)) as [E | N]; [exact E |].
      assert (Hx : x ∈ y :: l2) by (rewrite <- Hperm; apply list_elem_of_here).
      assert (Hy : y ∈ x :: l1) by (rewrite Hperm; apply list_elem_of_here).
      apply elem_of_cons in Hx as [E | Hx]; [contradiction |].
      apply elem_of_cons in Hy as [E | Hy]; [congruence |].
      apply StronglySorted_inv in H1 as [_ H1]. apply StronglySorted_inv in H2 as [_ H2].
      rewrite List.Forall_forall in H1, H2.
      apply list_elem_of_In in Hx, Hy.
      specialize (H1 y Hy). specialize (H2 x Hx). cbn in H1, H2.
      apply Hdist.
      - apply list_elem_of_here.
      - apply list_elem_of_further, list_elem_of_In, Hy.
      - apply Qle_antisym; assumption. }
    subst y. f_equal. apply IH.
    + apply (Permutation_cons_inv Hperm).
    + apply StronglySorted_inv in H1 as [H1 _]. exact H1.
    + apply StronglySorted_inv in H2 as [H2 _]. exact H2.
    + intros a b Ha Hb. apply Hdist; apply list_elem_of_further; assumption.
Qed.

(** X18: when no two different players have the same contribution, the
    order in which the players are handed to [divideIntoTeams] does not
    matter: any rearrangement of the list gives the same teams, with the
    same members in the same roles, or the same error. *)
Theorem divideIntoTeams_order_independent (ps1 ps2 : list PlayerStats) :
  ps1 ≡ₚ ps2 -> scoresTellApart ps1 -> divideIntoTeams ps1 = divideIntoTeams ps2.
Proof.
  intros Hperm Hdist.
  assert (Hlen : length ps2 = length ps1) by (symmetry; apply Permutation_length, Hperm).
  destruct (valid_or_not (length ps1)) as [[Hn Hm] | Hbad].
  - rewrite !divideIntoTeams_ok by (rewrite ?Hlen; assumption).
    rewrite Hlen.
    assert (Hs : sort byContribution ps1 = sort byContribution ps2).
    { apply descending_perm_eq.
      - rewrite !sort_perm. exact Hperm.
      - apply sort_descending.
      - apply sort_descending.
      - intros a b Ha Hb. rewrite sort_perm in Ha, Hb. apply Hdist; assumption. }
    rewrite Hs. reflexivity.
  - rewrite !divideIntoTeams_invalid by (rewrite ?Hlen; assumption). reflexivity.
Qed.

Lemma divideIntoTeams_order_independent_witness :
  ladder ≡ₚ rev ladder
  /\ scoresTellApart ladder
  /\ divideIntoTeams ladder = divideIntoTeams (rev ladder).
Proof.
  assert (Hperm : ladder ≡ₚ rev ladder) by apply Permutation_rev.
  assert (Hdist : scoresTellApart ladder).
  { intros a b Ha Hb.
    repeat (apply elem_of_cons in Ha as [-> | Ha]); [.. | inversion Ha];
      (repeat (apply elem_of_cons in Hb as [-> | Hb]); [.. | inversion Hb]);
      first [ intros _; reflexivity | intros H; vm_compute in H; discriminate ]. }
  split; [exact Hperm |]. split; [exact Hdist |].
  apply (divideIntoTeams_order_independent ladder (rev ladder) Hperm Hdist).
Defined.

End MoreOrder.

Section MoreHints.

Import RiotApi Sample.

Lemma parseInt_not_a_number c rest :
  noNumeralStart c = true -> parseInt (String c rest) = NaN.
Proof.
  intros H.
  destruct c as [[] [] [] [] [] [] [] []];
    first [ discriminate H | reflexivity ].
Qed.

(** X19: a [retry-after] header that begins with a printable
    character other than a space, a sign or a decimal digit, as a date
    does, makes the [failed] listener answer a 429 with [NaN], and the
    wait before the request is sent again is then 0 ms. *)
Theorem hint_not_a_number (e : ApiError) (c : ascii) (rest : string) :
  is429 e = true ->
  retryAfterHeader e = Some (String c rest) ->
  noNumeralStart c = true ->
  onFailed e = Some NaN /\ backoffOf e = 0%Z.
Proof.
  intros H429 Hh Hc.
  assert (H : onFailed e = Some NaN).
  { unfold onFailed. rewrite H429, Hh. cbn [Js.truthyStr].
    rewrite (parseInt_not_a_number c rest Hc). reflexivity. }
  split; [exact H |]. unfold backoffOf. rewrite H. reflexivity.
Qed.

Lemma hint_not_a_number_witness :
  is429 (throttled (Some "Wed, 21 Oct 2015 07:28:00 GMT")) = true
  /\ noNumeralStart "W" = true
  /\ backoffOf (throttled (Some "Wed, 21 Oct 2015 07:28:00 GMT")) = 0%Z.
Proof.
  split; [reflexivity |]. split; [reflexivity |].
  apply (hint_not_a_number (throttled (Some "Wed, 21 Oct 2015 07:28:00 GMT"))
           "W" "ed, 21 Oct 2015 07:28:00 GMT"); reflexivity.
Defined.

End MoreHints.

(** ** The scale of the scores *)

Section MoreScores.

Import RiotApi Sample.

(** X20: from BRONZE IV up to the apex the tier score is one
    continuous scale of league points: a division is worth 100 points,
    and division I with [lp + 100] points scores the same as division IV
    of the next tier with [lp] points, DIAMOND I leading into MASTER. *)
Theorem tier_scale_is_continuous (like : LeagueEntry) (lp : Z) :
  (forall t t', In (t, t') promotions ->
      calculateTierScore (Some (ranked like t "I" (lp + 100)))
      = calculateTierScore (Some (ranked like t' "IV" lp)))
  /\ (forall t t' r r', In (t, t') promotions -> In (r, r') divisionSteps ->
        calculateTierScore (Some (ranked like t r' lp))
        = (calculateTierScore (Some (ranked like t r lp)) + 100)%Z)
  /\ (forall t r, calculateTierScore (Some (ranked like t r (lp + 1)))
                  = (calculateTierScore (Some (ranked like t r lp)) + 1)%Z).
Proof.
  repeat split.
  - intros t t' Ht. unfold promotions in Ht.
    repeat (destruct Ht as [Ht | Ht]; [inversion Ht; subst; cbn; lia |]).
    contradiction.
  - intros t t' r r' Ht Hr. unfold promotions in Ht. unfold divisionSteps in Hr.
    repeat (destruct Ht as [Ht | Ht]; [inversion Ht; subst; clear Ht |]);
      try contradiction;
      repeat (destruct Hr as [Hr | Hr]; [inversion Hr; subst; cbn; lia |]);
      contradiction.
  - intros t r. unfold calculateTierScore. cbn [ranked tier rank leaguePoints].
    destruct (isApex t); lia.
Qed.

Lemma activityBonus_range (log10 : Q -> Q) rankInfo :
  (forall x, (1 <= x)%Q -> (0 <= log10 x)%Q) ->
  (0 <= activityBonusOf log10 rankInfo <= 50)%Q.
Proof.
  intros Hlog. unfold activityBonusOf.
  destruct (Z.ltb_spec 0 (totalSeasonGamesOf rankInfo)) as [Hpos | Hneg].
  - assert (H1 : (1 <= inject_Z (totalSeasonGamesOf rankInfo))%Q).
    { change 1%Q with (inject_Z 1). rewrite <- Zle_Qle. lia. }
    specialize (Hlog _ H1).
    destruct (Q.min_spec 50 (log10 (inject_Z (totalSeasonGamesOf rankInfo)) * 15))
      as [[H E] | [H E]]; rewrite E; split; lra.
  - split; discriminate.
Qed.

(** X21: recent form moves a score by a bounded amount: for a player
    with at least one fetched match, the unrounded final score lies
    between the tier score plus the role bonus minus 400 and the tier
    score plus the role bonus plus 450 (KDA within 150 either way, win
    rate within 250 either way, activity between 0 and 50), provided the
    logarithm is not negative from 1 on. *)
Theorem form_adjustment_bounded (log10 : Q -> Q) (rankInfo : option LeagueEntry)
    (puuid : string) (matches : list MatchDto) (lane : string) :
  matches <> [] ->
  (forall x, (1 <= x)%Q -> (0 <= log10 x)%Q) ->
  let t := aggregate puuid matches in
  let n := length matches in
  let base := (inject_Z (calculateTierScore rankInfo)
               + statsBonusOf lane (avgVSPMOf t n) (avgCSPMOf t n))%Q in
  (base - 400 <= finalScoreOf log10 rankInfo t n lane <= base + 450)%Q.
Proof.
  intros Hne Hlog t n base. unfold base, finalScoreOf.
  destruct (kdaBonus_clamped (kdaOf t n)) as [Hk _].
  destruct (activityBonus_range log10 rankInfo Hlog) as [Ha0 Ha1].
  assert (Hw : (0 <= recentWinRateOf t n <= 100)%Q).
  { apply winRate_range.
    - unfold n. destruct matches; [contradiction | cbn; lia].
    - pose proof (fold_wins puuid matches initTotals) as Hw.
      fold (aggregate puuid matches) in Hw. cbn in Hw. exact Hw. }
  unfold winRateBonusOf.
  set (s := statsBonusOf lane (avgVSPMOf t n) (avgCSPMOf t n)) in *.
  set (k := kdaBonusOf (kdaOf t n)) in *.
  set (a := activityBonusOf log10 rankInfo) in *.
  set (r := recentWinRateOf t n) in *.
  split; lra.
Qed.

Lemma form_adjustment_bounded_witness :
  games <> []
  /\ (forall x, (1 <= x)%Q -> (0 <= noLog x)%Q)
  /\ (finalScoreOf noLog None (aggregate "p-1" games) 3 "MIDDLE" <= 1200 + 0 + 450)%Q.
Proof.
  assert (Hlog : forall x, (1 <= x)%Q -> (0 <= noLog x)%Q) by (intros; discriminate).
  split; [discriminate |]. split; [exact Hlog |].
  destruct (form_adjustment_bounded noLog None "p-1" games "MIDDLE") as [_ H].
  - discriminate.
  - exact Hlog.
  - exact H.
Defined.

End MoreScores.

(** ** The limit on [POST /divide-teams] *)

Section MoreRoute.

Import RiotApi ApiRoutes TeamMakerLimiter Sample.

Context (log10 sqrt : Q -> Q) (up : Upstream) (retries : nat).

Lemma bad_size_answer (players : list Identity) completion w :
  length players < 10 \/ length players mod 5 <> 0 ->
  divideTeams log10 sqrt up retries players completion w
  = Some (BadRequest (length players), w).
Proof.
  intros Hbad. unfold divideTeams.
  destruct (Nat.ltb_spec (length players) 10) as [Hlt | Hge]; [reflexivity |].
  destruct (Nat.eqb_spec (length players mod 5) 0) as [E | N]; [| reflexivity].
  destruct Hbad; [lia | contradiction].
Qed.

Lemma bad_request_only_for_bad_size (players : list Identity) completion w count w' :
  divideTeams log10 sqrt up retries players completion w = Some (BadRequest count, w') ->
  (length players < 10 \/ length players mod 5 <> 0)
  /\ count = length players /\ w' = w.
Proof.
  unfold divideTeams. intros H.
  destruct (Nat.ltb_spec (length players) 10) as [Hlt | Hge].
  - injection H as <- <-. auto.
  - destruct (Nat.eqb_spec (length players mod 5) 0) as [E | N].
    + cbn [negb orb] in H.
      destruct (mapM _ _ w) as [[[results | e] w1] |]; [| discriminate..].
      destruct (Nat.ltb _ 10); [discriminate |].
      destruct (TeamMaker.divideIntoTeams _); discriminate.
    + injection H as <- <-. auto.
Qed.

(** X16: on the route [POST /divide-teams] the limiter comes before
    the handler and allows a client one request per window of two
    minutes.  A client's first request in its window is answered with
    status 400 exactly when the list has fewer than ten players or a
    length that is not a multiple of five, with that length reported and
    no request made to the upstream.  Every further request of the client
    in the window is answered with status 429 without reaching the
    handler, whatever its list.  So a request of invalid size uses up the
    client's one request: the corrected list, sent in the same window, is
    answered with status 429.  When the window ends the client's count is
    0 again. *)
Theorem divideTeams_route_answers (client : string) (players : list Identity)
    (completion : list nat) (hits : gmap string nat) (w : World) :
  (hitsOf hits client = 0 ->
   length players < 10 \/ length players mod 5 <> 0 ->
   postDivideTeams log10 sqrt up retries client players completion (hits, w)
   = Some (Handled (BadRequest (length players)), (<[client := 1]> hits, w)))
  /\ (0 < hitsOf hits client ->
      postDivideTeams log10 sqrt up retries client players completion (hits, w)
      = Some (TooManyRequests, (<[client := S (hitsOf hits client)]> hits, w)))
  /\ (forall count st',
        postDivideTeams log10 sqrt up retries client players completion (hits, w)
        = Some (Handled (BadRequest count), st') ->
        hitsOf hits client = 0
        /\ (length players < 10 \/ length players mod 5 <> 0)
        /\ count = length players /\ snd st' = w)
  /\ hitsOf (windowEnds client hits) client = 0
  /\ (forall players' completion',
        hitsOf hits client = 0 ->
        length players < 10 \/ length players mod 5 <> 0 ->
        exists st1,
          postDivideTeams log10 sqrt up retries client players completion (hits, w)
          = Some (Handled (BadRequest (length players)), st1)
          /\ postDivideTeams log10 sqrt up retries client players' completion' st1
             = Some (TooManyRequests, (<[client := 2]> hits, w))).
Proof.
  assert (Hfirst : hitsOf hits client = 0 ->
                   length players < 10 \/ length players mod 5 <> 0 ->
                   postDivideTeams log10 sqrt up retries client players completion (hits, w)
                   = Some (Handled (BadRequest (length players)),
                           (<[client := 1]> hits, w))).
  { intros H0 Hbad. unfold postDivideTeams. cbn [fst snd]. rewrite H0.
    cbn [max Nat.ltb Nat.leb]. rewrite bad_size_answer by exact Hbad. reflexivity. }
  assert (Hlater : forall ps c (h : gmap string nat),
            0 < hitsOf h client ->
            postDivideTeams log10 sqrt up retries client ps c (h, w)
            = Some (TooManyRequests, (<[client := S (hitsOf h client)]> h, w))).
  { intros ps c h Hpos. unfold postDivideTeams. cbn [fst snd].
    destruct (Nat.ltb_spec max (S (hitsOf h client))) as [_ | N]; [reflexivity |].
    unfold max in N. lia. }
  split; [exact Hfirst |]. split; [apply Hlater |]. split; [| split].
  - intros count st' H. unfold postDivideTeams in H. cbn [fst snd] in H.
    destruct (Nat.ltb_spec max (S (hitsOf hits client))) as [_ | Hle]; [discriminate |].
    unfold max in Hle.
    destruct (divideTeams _ _ _ _ _ _ w) as [[response w'] |] eqn:E; [| discriminate].
    injection H as -> <-.
    apply bad_request_only_for_bad_size in E as (Hbad & -> & ->).
    repeat split; [lia | exact Hbad].
  - unfold hitsOf, windowEnds. rewrite lookup_delete_eq. reflexivity.
  - intros players' completion' H0 Hbad. eexists. split; [apply Hfirst; assumption |].
    rewrite Hlater.
    + unfold hitsOf. rewrite lookup_insert_eq. cbn [default].
      rewrite insert_insert_eq. reflexivity.
    + unfold hitsOf. rewrite lookup_insert_eq. cbn. lia.
Qed.

End MoreRoute.
